(** * Clock-tree rate model of the NPCM8xx clock driver

    A shallow embedding of [drivers/clk/nuvoton/clk_npcm8xx.c] and the
    properties of its rate resolver and rate programmer.

    Conventions of the embedding:
    - C integers are [Z] with the wrap-around of each conversion written
      out ([u8], [u32], [u64], [s32]).  The driver is built for the
      AArch64 NPCM845, so [ulong] is 64 bits wide.
    - The memory-mapped register block is a store from byte offsets to
      words, together with the list of the [writel] accesses performed.
    - A driver function is a computation over that store which either
      returns a value, runs into C undefined behaviour (a division by
      zero), or exhausts the recursion budget of the model. *)

From Stdlib Require Import ZArith List Bool Lia.
Import ListNotations.
Local Open Scope Z_scope.

(** ** Fixed-width integers *)

Definition u8  (x : Z) : Z := x mod 2 ^ 8.
Definition u32 (x : Z) : Z := x mod 2 ^ 32.
Definition u64 (x : Z) : Z := x mod 2 ^ 64.

(** Conversion of a 32-bit pattern to [int]. *)
Definition s32 (x : Z) : Z :=
  let y := u32 x in if y <? 2 ^ 31 then y else y - 2 ^ 32.

(** [~x] on a [u32]. *)
Definition not32 (x : Z) : Z := u32 (Z.lnot x).

(** ** Helpers of the headers the driver includes

    The macros and constants below come from headers outside the driver
    file ([linux/bitops.h], [linux/bitfield.h], [linux/log2.h],
    [linux/kernel.h], [div64.h], [errno.h]). *)

(** Modelled from the spec: [BIT(n)] of [linux/bitops.h], the flag with
    bit [n] set. *)
Definition BIT (n : Z) : Z := Z.shiftl 1 n.

(** Modelled from the spec: [GENMASK(h, l)] of [linux/bitops.h], the
    bit mask locating a field, bits [l..h] set, computed on a 64-bit
    [unsigned long] as [(~0UL << l) & (~0UL >> (63 - h))]. *)
Definition GENMASK (h l : Z) : Z :=
  Z.land (u64 (Z.shiftl (2 ^ 64 - 1) l)) (Z.shiftr (2 ^ 64 - 1) (63 - h)).

(** Modelled from the spec: the number of trailing zero bits, the index
    of the lowest set bit. *)
Fixpoint ctz_pos (p : positive) : Z :=
  match p with
  | xO q => 1 + ctz_pos q
  | _ => 0
  end.

(** Modelled from the spec: [ffs(x)], one plus the index of the mask's
    lowest set bit, 0 if there is none. *)
Definition ffs (x : Z) : Z :=
  match x with
  | Zpos p => ctz_pos p + 1
  | _ => 0
  end.

(** The field codec as the driver writes it out:
    [(word & mask) >> (ffs(mask) - 1)]. *)
Definition field_get (mask word : Z) : Z :=
  Z.shiftr (Z.land word mask) (ffs mask - 1).

(** [word &= ~mask; word |= (value << (ffs(mask) - 1)) & mask] *)
Definition field_set (mask word value : Z) : Z :=
  Z.lor (Z.land word (not32 mask))
        (Z.land (u32 (Z.shiftl value (ffs mask - 1))) mask).

(** Modelled from the spec: [FIELD_GET(mask, word)] of
    [linux/bitfield.h], the field extraction for a constant mask. *)
Definition FIELD_GET (mask word : Z) : Z := field_get mask word.

(** Modelled from the spec: [ilog2(n)] of [linux/log2.h], the truncating
    base-2 logarithm ([fls(n) - 1], so -1 at 0). *)
Definition ilog2 (n : Z) : Z := if n =? 0 then -1 else Z.log2 n.

(** Modelled from the spec: the errno constants behind the
    [UnknownSelectorEncoding] and [NotImplemented] errors. *)
Definition EINVAL : Z := 22.
Definition ENOSYS : Z := 38.

(** ** Register offsets, masks and flags *)

Definition CLKSEL  : Z := 0x04.
Definition CLKDIV1 : Z := 0x08.
Definition CLKDIV2 : Z := 0x2C.
Definition CLKDIV3 : Z := 0x58.
Definition PLLCON0 : Z := 0x0C.
Definition PLLCON1 : Z := 0x10.
Definition PLLCON2 : Z := 0x54.

Definition PLLCON_INDV  : Z := Eval cbv in GENMASK 5 0.
Definition PLLCON_FBDV  : Z := Eval cbv in GENMASK 27 16.
Definition PLLCON_OTDV1 : Z := Eval cbv in GENMASK 10 8.
Definition PLLCON_OTDV2 : Z := Eval cbv in GENMASK 15 13.

Definition CPUCKSEL  : Z := Eval cbv in GENMASK 2 0.
Definition SDCKSEL   : Z := Eval cbv in GENMASK 7 6.
Definition UARTCKSEL : Z := Eval cbv in GENMASK 9 8.

Definition CPUCKSEL_PLL0   : Z := 0.
Definition CPUCKSEL_PLL1   : Z := 1.
Definition CPUCKSEL_REFCLK : Z := 2.
Definition CPUCKSEL_PLL2   : Z := 7.
Definition CKSEL_PLL0      : Z := 0.
Definition CKSEL_PLL1      : Z := 1.
Definition CKSEL_REFCLK    : Z := 2.
Definition CKSEL_PLL2      : Z := 3.

Definition CLK4DIV  : Z := Eval cbv in GENMASK 27 26.
Definition UARTDIV1 : Z := Eval cbv in GENMASK 20 16.
Definition MMCCKDIV : Z := Eval cbv in GENMASK 15 11.

Definition APB2CKDIV : Z := Eval cbv in GENMASK 27 26.
Definition APB5CKDIV : Z := Eval cbv in GENMASK 23 22.
Definition UARTDIV2  : Z := Eval cbv in GENMASK 15 11.

Definition FIXED_SRC : Z := Eval cbv in BIT 0.
Definition DIV_TYPE1 : Z := Eval cbv in BIT 1.
Definition DIV_TYPE2 : Z := Eval cbv in BIT 2.
Definition PRE_DIV2  : Z := Eval cbv in BIT 3.
Definition POST_DIV2 : Z := Eval cbv in BIT 4.

Definition REFCLK_25M : Z := 25000000.
Definition NONE : Z := -1.

(** [flags & f] used as a condition. *)
Definition has_flag (flags f : Z) : bool := negb (Z.land flags f =? 0).

(** ** The register block *)

Record regs : Type := mk_regs {
  cells : Z -> Z;               (* contents, by byte offset *)
  written : list (Z * Z)        (* the writel accesses, latest first *)
}.

Inductive outcome (A : Type) : Type :=
| Ret (a : A) (s : regs)        (* normal return *)
| Undef                         (* undefined behaviour in the C code *)
| Diverge.                      (* recursion budget exhausted *)
Arguments Ret {A} a s.
Arguments Undef {A}.
Arguments Diverge {A}.

Definition M (A : Type) : Type := regs -> outcome A.

Definition ret {A} (a : A) : M A := fun s => Ret a s.

Definition bind {A B} (m : M A) (k : A -> M B) : M B :=
  fun s =>
    match m s with
    | Ret a s' => k a s'
    | Undef => Undef
    | Diverge => Diverge
    end.

Definition undef {A} : M A := fun _ => Undef.
Definition diverge {A} : M A := fun _ => Diverge.

Notation "x <- m ;; k" := (bind m (fun x => k))
  (at level 61, m at next level, right associativity).
Notation "m ;;; k" := (bind m (fun _ => k))
  (at level 61, right associativity).

(** [readl(priv->regs + off)] *)
Definition readl (off : Z) : M Z := fun s => Ret (u32 (cells s off)) s.

(** [writel(val, priv->regs + off)] *)
Definition writel (val off : Z) : M unit :=
  fun s =>
    Ret tt {| cells := fun o => if o =? off then val else cells s o;
              written := (off, val) :: written s |}.

(** Unsigned division as C has it; dividing by zero is undefined. *)
Definition udiv (n d : Z) : M Z := if d =? 0 then undef else ret (n / d).

(** Modelled from the spec: [do_div(n, base)] of [div64.h], the
    division of the double-width value: [n] becomes [n / (uint32_t)base]. *)
Definition do_div (n base : Z) : M Z := udiv (u64 n) (u32 base).

(** Modelled from the spec: [DIV_ROUND_UP(n, d)] of [linux/kernel.h],
    [(n + d - 1) / d] on [unsigned long]. *)
Definition DIV_ROUND_UP (n d : Z) : M Z := udiv (u64 (n + d - 1)) d.

(** [1 << n] on [int]: defined while the result fits. *)
Definition shl_int (x n : Z) : M Z :=
  if (0 <=? n) && (n <? 31) then ret (Z.shiftl x n) else undef.

(** ** The driver *)

Record npcm_clk : Type := mk_clk {
  id : Z;            (* int *)
  parent_id : Z;     (* int *)
  reg_clkdiv : Z;    (* u8 *)
  div_mask : Z;      (* u32 *)
  sel_mask : Z;      (* u32 *)
  sel_val : Z;       (* u32 *)
  flags : Z          (* u32 *)
}.

Record npcm_clk_map : Type := mk_map {
  clkid : Z;         (* u32 *)
  clksel : Z         (* u8 *)
}.

(** A row of the clock table: the initializer converts each value to the
    type of its field. *)
Definition clk_row (i p r dm sm sv f : Z) : npcm_clk :=
  mk_clk i p (u8 r) (u32 dm) (u32 sm) (u32 sv) (u32 f).

(** All elements of a list differ from each other. *)
Fixpoint distinct (l : list Z) : bool :=
  match l with
  | [] => true
  | x :: r => negb (existsb (Z.eqb x) r) && distinct r
  end.

(** A computation that leaves the register block as it found it: no
    cell changed, no [writel] performed. *)
Definition read_only {A} (m : M A) : Prop :=
  forall s, match m s with Ret _ s' => s' = s | _ => True end.

(** A computation that stays within the recursion budget. *)
Definition terminates {A} (m : M A) : Prop := forall s, m s <> Diverge.

(** The value [readl] finds at an offset. *)
Definition reg (s : regs) (off : Z) : Z := u32 (cells s off).

(** The PLL transfer function in the words of the specification:
    (input x feedback) / (inputDivider x outputDivider1 x outputDivider2),
    halved once more under POST_HALVE; exact integers, no wrap-around. *)
Definition spec_pll_output (fin indv fbdv otdv1 otdv2 : Z) (post_halve : bool) : Z :=
  let out := (fin * fbdv) / (indv * otdv1 * otdv2) in
  if post_halve then out / 2 else out.

(** The divisor of a generic divided node in the words of the
    specification: field + 1 when DIV_LINEAR, 2^field when DIV_POW2,
    doubled under PRE_HALVE. *)
Definition spec_div (fl field : Z) : Z :=
  let d := if has_flag fl DIV_TYPE1 then field + 1 else 2 ^ field in
  if has_flag fl PRE_DIV2 then 2 * d else d.

(** ceil(n / d) on exact integers. *)
Definition ceil_div (n d : Z) : Z := (n + d - 1) / d.

(** Register blocks for the examples.  In [sample_regs] the three PLL
    control registers hold inputDivider 1, feedbackDivider 64,
    outputDivider1 2, outputDivider2 1; the CPU mux selects PLL0 and the
    AHB divider field holds 1. *)
Definition sample_regs : regs :=
  mk_regs (fun o => if o =? PLLCON0 then 0x00402201
                    else if o =? PLLCON1 then 0x00402201
                    else if o =? PLLCON2 then 0x00402201
                    else if o =? CLKDIV1 then 0x04000000
                    else 0) [].

(** The same block with 2 in the CPU mux field of CLKSEL, an encoding
    the CPU selector map does not list. *)
Definition stray_mux_regs : regs :=
  mk_regs (fun o => if o =? CLKSEL then 2 else cells sample_regs o) [].

(** The same block with the feedback divider of PLL0 cleared. *)
Definition stopped_pll_regs : regs :=
  mk_regs (fun o => if o =? PLLCON0 then 0x00002201 else cells sample_regs o) [].

(** A block with every register cleared: the PLL dividers are all zero. *)
Definition zero_regs : regs := mk_regs (fun _ => 0) [].

(** The clock identifiers of [dt-bindings/clock/npcm845-clock.h], a
    header outside the driver file: [int] constants, one per clock, and
    their count.  The driver is verified for any numbering that the
    header may give them (see [ids_wf]). *)
Class clock_ids : Type := {
  CLK_REFCLK : Z;
  CLK_PLL0 : Z;
  CLK_PLL1 : Z;
  CLK_PLL2 : Z;
  CLK_PLL2DIV2 : Z;
  CLK_AHB : Z;
  CLK_APB2 : Z;
  CLK_APB5 : Z;
  CLK_UART1 : Z;
  CLK_UART2 : Z;
  CLK_SDHC : Z;
  CLK_COUNT : Z
}.

(** A numbering for the examples. *)
Definition sample_ids : clock_ids :=
  {| CLK_REFCLK := 0; CLK_PLL0 := 1; CLK_PLL1 := 2; CLK_PLL2 := 3;
     CLK_PLL2DIV2 := 4; CLK_AHB := 5; CLK_APB2 := 6; CLK_APB5 := 7;
     CLK_UART1 := 8; CLK_UART2 := 9; CLK_SDHC := 10; CLK_COUNT := 11 |}.

Section Driver.

Context {ids : clock_ids}.

Definition CLK_MAP_SIZE : nat := 3.

Definition npcm8xx_cpu_clksel_map : list npcm_clk_map :=
  [ mk_map CLK_PLL0 CPUCKSEL_PLL0;
    mk_map CLK_PLL1 CPUCKSEL_PLL1;
    mk_map CLK_PLL2 CPUCKSEL_PLL2 ].

Definition npcm8xx_clksel_map : list npcm_clk_map :=
  [ mk_map CLK_PLL0     CKSEL_PLL0;
    mk_map CLK_PLL1     CKSEL_PLL1;
    mk_map CLK_PLL2DIV2 CKSEL_PLL2 ].

(** npcm8xx clock table, Fout = ((Fin / PRE_DIV2) / div) / POST_DIV2 *)
Definition npcm8xx_clks : list npcm_clk :=
  [ clk_row CLK_PLL0     CLK_REFCLK   PLLCON0 NONE      NONE      NONE       FIXED_SRC;
    clk_row CLK_PLL1     CLK_REFCLK   PLLCON1 NONE      NONE      NONE       FIXED_SRC;
    clk_row CLK_PLL2     CLK_REFCLK   PLLCON2 NONE      NONE      NONE       FIXED_SRC;
    clk_row CLK_PLL2DIV2 CLK_REFCLK   PLLCON2 NONE      NONE      NONE       (Z.lor FIXED_SRC POST_DIV2);
    clk_row CLK_AHB      NONE         CLKDIV1 CLK4DIV   CPUCKSEL  NONE       (Z.lor DIV_TYPE1 PRE_DIV2);
    clk_row CLK_APB2     CLK_AHB      CLKDIV2 APB2CKDIV NONE      NONE       (Z.lor FIXED_SRC DIV_TYPE2);
    clk_row CLK_APB5     CLK_AHB      CLKDIV2 APB5CKDIV NONE      NONE       (Z.lor FIXED_SRC DIV_TYPE2);
    clk_row CLK_UART1    CLK_PLL2DIV2 CLKDIV1 UARTDIV1  UARTCKSEL CKSEL_PLL2 DIV_TYPE1;
    clk_row CLK_UART2    CLK_PLL2DIV2 CLKDIV3 UARTDIV2  UARTCKSEL CKSEL_PLL2 DIV_TYPE1;
    clk_row CLK_SDHC     CLK_PLL0     CLKDIV1 MMCCKDIV  SDCKSEL   CKSEL_PLL0 DIV_TYPE1 ].

(** [static int clksel_to_clkid(u8 clksel, u32 mask)]: the first entry of
    the domain's map with that encoding, [-EINVAL] if there is none. *)
Definition clksel_to_clkid (sel mask : Z) : Z :=
  let map := if mask =? CPUCKSEL then npcm8xx_cpu_clksel_map
             else npcm8xx_clksel_map in
  match find (fun e => e.(clksel) =? sel) (firstn CLK_MAP_SIZE map) with
  | Some e => s32 e.(clkid)
  | None => - EINVAL
  end.

(** [static struct npcm_clk *npcm_clk_get(u32 clk_id)] *)
Definition npcm_clk_get (clk_id : Z) : option npcm_clk :=
  find (fun c => u32 c.(id) =? clk_id) npcm8xx_clks.

(** [static int npcm_clk_request(struct clk *clk)] *)
Definition npcm_clk_request (clk_id : Z) : Z :=
  if u64 CLK_COUNT <=? clk_id then - EINVAL else 0.

Section Ops.

(** Modelled from the spec: [clk_get_rate] of the clock uclass
    ([drivers/clk/clk-uclass.c], outside the driver file), which hands
    the call to the driver's [get_rate] operation ("recursively resolve
    that parent's output frequency").  It is the recursive call, tied to
    [npcm_clk_get_rate] by the fixpoint [clk_get_rate] below. *)
Variable clk_get_rate : Z -> M Z.

(** Modelled from the spec: [clk_request] of the clock uclass, which
    hands the call to the driver's [request] operation ("validating the
    id is within the known range before use"). *)
Definition clk_request (clk_id : Z) : Z := npcm_clk_request clk_id.

(** [static ulong npcm_clk_get_fin(priv, clk)] *)
Definition npcm_clk_get_fin (clk : npcm_clk) : M Z :=
  parent <-
    (if has_flag clk.(flags) FIXED_SRC then
       ret (u64 clk.(parent_id))
     else
       val <- readl CLKSEL ;;
       let sel := field_get clk.(sel_mask) val in
       ret (u64 (clksel_to_clkid (u8 sel) clk.(sel_mask)))) ;;
  if clk_request parent =? 0 then clk_get_rate parent else ret 0.

(** [static ulong npcm_clk_get_fout(priv, id)] *)
Definition npcm_clk_get_fout (clk_id : Z) : M Z :=
  match npcm_clk_get clk_id with
  | None => ret 0
  | Some clk =>
      parent_rate <- npcm_clk_get_fin clk ;;
      val <- readl clk.(reg_clkdiv) ;;
      let clkdiv := field_get clk.(div_mask) val in
      div <- (if has_flag clk.(flags) DIV_TYPE1 then ret (u32 (clkdiv + 1))
              else d <- shl_int 1 clkdiv ;; ret (u32 d)) ;;
      let div := if has_flag clk.(flags) PRE_DIV2 then u32 (div * 2) else div in
      udiv parent_rate div
  end.

(** [static ulong npcm_clk_set_fout(priv, id, rate)] *)
Definition npcm_clk_set_fout (clk_id rate : Z) : M Z :=
  match npcm_clk_get clk_id with
  | None => ret 0
  | Some clk =>
      (* Select source *)
      val <- readl CLKSEL ;;
      writel (field_set clk.(sel_mask) val clk.(sel_val)) CLKSEL ;;;
      (* Calculate div *)
      parent_rate <- npcm_clk_get_fin clk ;;
      d <- DIV_ROUND_UP parent_rate rate ;;
      let div := u32 d in
      let clkdiv := if has_flag clk.(flags) DIV_TYPE1 then u32 (div - 1)
                    else u32 (ilog2 div) in
      val <- readl clk.(reg_clkdiv) ;;
      writel (field_set clk.(div_mask) val clkdiv) clk.(reg_clkdiv) ;;;
      udiv parent_rate div
  end.

(** [static ulong npcm_clk_get_pll_rate(priv, id)] *)
Definition npcm_clk_get_pll_rate (clk_id : Z) : M Z :=
  match npcm_clk_get clk_id with
  | None => ret 0
  | Some clk =>
      parent_rate <- npcm_clk_get_fin clk ;;
      val <- readl clk.(reg_clkdiv) ;;
      let indv := FIELD_GET PLLCON_INDV val in
      let fbdv := FIELD_GET PLLCON_FBDV val in
      let otdv1 := FIELD_GET PLLCON_OTDV1 val in
      let otdv2 := FIELD_GET PLLCON_OTDV2 val in
      let r := u64 (parent_rate * fbdv) in
      r <- do_div r (u64 (indv * otdv1 * otdv2)) ;;
      r <- (if has_flag clk.(flags) POST_DIV2 then do_div r 2 else ret r) ;;
      ret r
  end.

(** [static ulong npcm_clk_get_rate(struct clk *clk)] *)
Definition npcm_clk_get_rate (clk_id : Z) : M Z :=
  if clk_id =? CLK_REFCLK then
    ret REFCLK_25M
  else if (clk_id =? CLK_PLL0) || (clk_id =? CLK_PLL1)
          || (clk_id =? CLK_PLL2) || (clk_id =? CLK_PLL2DIV2) then
    npcm_clk_get_pll_rate (u32 clk_id)
  else if (clk_id =? CLK_AHB) || (clk_id =? CLK_APB2) || (clk_id =? CLK_APB5) then
    npcm_clk_get_fout (u32 clk_id)
  else
    ret (u64 (- ENOSYS)).

(** [static ulong npcm_clk_set_rate(struct clk *clk, ulong rate)] *)
Definition npcm_clk_set_rate (clk_id rate : Z) : M Z :=
  if (clk_id =? CLK_SDHC) || (clk_id =? CLK_UART1) || (clk_id =? CLK_UART2) then
    fout <- npcm_clk_set_fout (u32 clk_id) rate ;;
    ret fout
  else
    ret (u64 (- ENOSYS)).

End Ops.

(** The uclass call back into the driver.  [budget] bounds the nesting
    of the calls; the clock tree is four levels deep
    (APB -> AHB -> PLL -> reference), see [clk_get_rate_terminates]. *)
Fixpoint clk_get_rate (budget : nat) (clk_id : Z) : M Z :=
  match budget with
  | O => diverge
  | S n => npcm_clk_get_rate (clk_get_rate n) clk_id
  end.

Definition tree_depth : nat := 3.

(** The two operations the driver registers in [npcm_clk_ops]. *)
Definition get_rate (clk_id : Z) : M Z :=
  npcm_clk_get_rate (clk_get_rate tree_depth) clk_id.

Definition set_rate (clk_id rate : Z) : M Z :=
  npcm_clk_set_rate (clk_get_rate tree_depth) clk_id rate.

(** The identifiers the driver knows, and what the header guarantees
    about them: they differ from each other, and each is a non-negative
    [int] below [CLK_COUNT]. *)
Definition clk_ids : list Z :=
  [ CLK_REFCLK; CLK_PLL0; CLK_PLL1; CLK_PLL2; CLK_PLL2DIV2;
    CLK_AHB; CLK_APB2; CLK_APB5; CLK_UART1; CLK_UART2; CLK_SDHC ].

Definition ids_wf : bool :=
  distinct clk_ids
  && forallb (fun i => (0 <=? i) && (i <? CLK_COUNT)) clk_ids
  && (CLK_COUNT <? 2 ^ 31).

(** The PLL nodes, the generic divided nodes and the settable nodes. *)
Definition pll_ids : list Z := [ CLK_PLL0; CLK_PLL1; CLK_PLL2; CLK_PLL2DIV2 ].
Definition settable_ids : list Z := [ CLK_SDHC; CLK_UART1; CLK_UART2 ].
Definition readable_ids : list Z :=
  CLK_REFCLK :: pll_ids ++ [ CLK_AHB; CLK_APB2; CLK_APB5 ].

(** The input divider, the feedback divider and the two output dividers
    of a PLL control word. *)
Definition pll_indv (val : Z) : Z := FIELD_GET PLLCON_INDV val.
Definition pll_fbdv (val : Z) : Z := FIELD_GET PLLCON_FBDV val.
Definition pll_otdv1 (val : Z) : Z := FIELD_GET PLLCON_OTDV1 val.
Definition pll_otdv2 (val : Z) : Z := FIELD_GET PLLCON_OTDV2 val.

(** The rate of a PLL with control word [val] fed by the reference
    oscillator; no rate when the divider product is zero. *)
Definition pll_rate (val : Z) (post_halve : bool) : option Z :=
  if pll_indv val * pll_otdv1 val * pll_otdv2 val =? 0 then None
  else Some (spec_pll_output REFCLK_25M (pll_indv val) (pll_fbdv val)
                             (pll_otdv1 val) (pll_otdv2 val) post_halve).

Definition lift_opt {A} (o : option A) : M A :=
  match o with
  | Some a => ret a
  | None => undef
  end.

(** The selector map of a mux domain, chosen by the mask as
    [clksel_to_clkid] does. *)
Definition selector_map (mask : Z) : list npcm_clk_map :=
  if mask =? CPUCKSEL then npcm8xx_cpu_clksel_map else npcm8xx_clksel_map.

(** The state after [npcm_clk_set_fout] has programmed the mux of [clk]. *)
Definition select_source (clk : npcm_clk) (s : regs) : regs :=
  mk_regs (fun o => if o =? CLKSEL
                    then field_set clk.(sel_mask) (reg s CLKSEL) clk.(sel_val)
                    else cells s o)
          ((CLKSEL, field_set clk.(sel_mask) (reg s CLKSEL) clk.(sel_val)) :: written s).

(** The state after [npcm_clk_set_fout] has written [clkdiv] into the
    divider field of [clk]. *)
Definition program_div (clk : npcm_clk) (clkdiv : Z) (s : regs) : regs :=
  mk_regs (fun o => if o =? clk.(reg_clkdiv)
                    then field_set clk.(div_mask) (reg s clk.(reg_clkdiv)) clkdiv
                    else cells s o)
          ((clk.(reg_clkdiv),
            field_set clk.(div_mask) (reg s clk.(reg_clkdiv)) clkdiv) :: written s).

(** What the table says about a settable row [clk] and the row [p] of
    its declared parent. *)
Definition settable_row (clk p : npcm_clk) : Prop :=
  In p npcm8xx_clks /\ In p.(id) pll_ids /\ p.(id) = clk.(parent_id) /\
  p.(reg_clkdiv) <> CLKSEL /\ p.(reg_clkdiv) <> clk.(reg_clkdiv) /\
  clk.(reg_clkdiv) <> CLKSEL /\
  has_flag clk.(flags) FIXED_SRC = false /\
  has_flag clk.(flags) DIV_TYPE1 = true /\
  has_flag clk.(flags) PRE_DIV2 = false /\
  0 < clk.(sel_mask) < 2 ^ 32 /\ 0 < clk.(div_mask) < 2 ^ 32 /\
  clk.(div_mask) <> u32 NONE /\
  Z.shiftr clk.(div_mask) (ffs clk.(div_mask) - 1) = 31 /\
  Z.land clk.(sel_val) (Z.shiftr clk.(sel_mask) (ffs clk.(sel_mask) - 1))
  = clk.(sel_val) /\
  u8 clk.(sel_val) = clk.(sel_val) /\
  clksel_to_clkid (u8 clk.(sel_val)) clk.(sel_mask) = clk.(parent_id).

(** Two outcomes that agree on everything but the register block they
    end in: the same value, or both undefined, or both out of budget. *)
Definition same_result {A} (o o' : outcome A) : Prop :=
  match o, o' with
  | Ret a _, Ret b _ => a = b
  | Undef, Undef => True
  | Diverge, Diverge => True
  | _, _ => False
  end.

(** Two register blocks that agree on what the rate resolver looks at:
    the three PLL control words, the CPU mux field of CLKSEL, the AHB
    divider field of CLKDIV1 and the two APB divider fields of CLKDIV2. *)
Definition same_inputs (s s' : regs) : Prop :=
  reg s PLLCON0 = reg s' PLLCON0 /\
  reg s PLLCON1 = reg s' PLLCON1 /\
  reg s PLLCON2 = reg s' PLLCON2 /\
  field_get CPUCKSEL (reg s CLKSEL) = field_get CPUCKSEL (reg s' CLKSEL) /\
  field_get CLK4DIV (reg s CLKDIV1) = field_get CLK4DIV (reg s' CLKDIV1) /\
  field_get APB2CKDIV (reg s CLKDIV2) = field_get APB2CKDIV (reg s' CLKDIV2) /\
  field_get APB5CKDIV (reg s CLKDIV2) = field_get APB5CKDIV (reg s' CLKDIV2).

(** [m'] returns what [m] returns wherever [m] stays within its budget. *)
Definition refines {A} (m m' : M A) : Prop :=
  forall s, m s <> Diverge -> m' s = m s.

(** The largest rate a PLL can give: 25 MHz times the largest feedback
    divider, over divider products of 1. *)
Definition PLL_RATE_MAX : Z := 25000000 * 4095.

(** ** Properties *)

Hypothesis ids_ok : ids_wf = true.

(** *** Fixed-width arithmetic *)

Lemma u32_small x : 0 <= x < 2 ^ 32 -> u32 x = x.
Proof. intros H. unfold u32. now apply Z.mod_small. Qed.

Lemma u64_small x : 0 <= x < 2 ^ 64 -> u64 x = x.
Proof. intros H. unfold u64. now apply Z.mod_small. Qed.

Lemma s32_small x : 0 <= x < 2 ^ 31 -> s32 x = x.
Proof.
  intros H. unfold s32. rewrite u32_small by lia.
  destruct (Z.ltb_spec x (2 ^ 31)); [reflexivity | lia].
Qed.

Lemma u32_land x : u32 x = Z.land x (Z.ones 32).
Proof. unfold u32. now rewrite Z.land_ones. Qed.

Lemma land_ones32 m : 0 <= m < 2 ^ 32 -> Z.land (Z.ones 32) m = m.
Proof.
  intros H. rewrite Z.land_comm, Z.land_ones by lia. now apply Z.mod_small.
Qed.

Lemma not32_land m : 0 <= m < 2 ^ 32 -> Z.land (not32 m) m = 0.
Proof.
  intros H. unfold not32. rewrite u32_land, <- Z.land_assoc, land_ones32 by exact H.
  rewrite Z.land_comm. apply Z.land_lnot_diag.
Qed.

Lemma not32_ones m : Z.land (not32 m) (Z.ones 32) = not32 m.
Proof.
  unfold not32. rewrite u32_land, <- Z.land_assoc. now rewrite Z.land_diag.
Qed.

(** *** The field codec *)

(** The masks the driver builds with [GENMASK], and the flags. *)
Lemma mask_values :
  PLLCON_INDV = 0x0000003F /\ PLLCON_FBDV = 0x0FFF0000 /\
  PLLCON_OTDV1 = 0x00000700 /\ PLLCON_OTDV2 = 0x0000E000 /\
  CPUCKSEL = 0x00000007 /\ SDCKSEL = 0x000000C0 /\ UARTCKSEL = 0x00000300 /\
  CLK4DIV = 0x0C000000 /\ UARTDIV1 = 0x001F0000 /\ MMCCKDIV = 0x0000F800 /\
  APB2CKDIV = 0x0C000000 /\ APB5CKDIV = 0x00C00000 /\ UARTDIV2 = 0x0000F800 /\
  [FIXED_SRC; DIV_TYPE1; DIV_TYPE2; PRE_DIV2; POST_DIV2] = [1; 2; 4; 8; 16].
Proof. repeat split. Qed.

Lemma ffs_pos m : 0 < m -> 0 <= ffs m - 1.
Proof.
  destruct m as [|p|p]; try lia. intros _. cbn [ffs].
  assert (0 <= ctz_pos p) by (induction p; cbn [ctz_pos]; lia). lia.
Qed.

Lemma land_le_r a b : 0 <= b -> Z.land a b <= b.
Proof.
  intros Hb. pose proof (Z.sub_land_same_l b a) as E.
  assert (0 <= Z.land b (Z.lnot a)) by (apply Z.land_nonneg; now left).
  rewrite (Z.land_comm a b). lia.
Qed.

Lemma field_get_bound m w :
  0 <= m -> 0 <= field_get m w <= Z.shiftr m (ffs m - 1).
Proof.
  intros Hm. unfold field_get. rewrite Z.shiftr_land.
  assert (0 <= Z.shiftr m (ffs m - 1)) by now apply Z.shiftr_nonneg.
  split.
  - apply Z.land_nonneg. now right.
  - now apply land_le_r.
Qed.

(** The word [field_set] builds is a 32-bit word whatever the old one. *)
Lemma u32_field_set m w v :
  0 <= m < 2 ^ 32 -> u32 (field_set m w v) = field_set m w v.
Proof.
  intros Hm. rewrite u32_land. unfold field_set.
  rewrite Z.land_lor_distr_l, <- !Z.land_assoc, not32_ones.
  now rewrite (Z.land_comm m), land_ones32.
Qed.

(** Reading a field back after writing it: the value, cut to the width
    of the field. *)
Lemma field_get_set m w v :
  0 < m < 2 ^ 32 ->
  field_get m (field_set m w v) = Z.land v (Z.shiftr m (ffs m - 1)).
Proof.
  intros Hm. pose proof (ffs_pos m ltac:(lia)) as Hk.
  unfold field_get, field_set.
  rewrite Z.land_lor_distr_l, <- !Z.land_assoc, not32_land, Z.land_diag by lia.
  rewrite Z.land_0_r, Z.lor_0_l.
  rewrite u32_land, <- Z.land_assoc, land_ones32 by lia.
  rewrite Z.shiftr_land, Z.shiftr_shiftl_l, Z.sub_diag by exact Hk.
  now rewrite Z.shiftl_0_r.
Qed.

(** Writing the same value into the same field again changes nothing. *)
Lemma field_set_idem m w v :
  0 <= m < 2 ^ 32 ->
  field_set m (field_set m w v) v = field_set m w v.
Proof.
  intros Hm. unfold field_set at 1 3.
  f_equal. unfold field_set.
  rewrite Z.land_lor_distr_l, <- !Z.land_assoc, Z.land_diag.
  rewrite (Z.land_comm m (not32 m)), not32_land, Z.land_0_r by exact Hm.
  apply Z.lor_0_r.
Qed.

(** *** Computations that only read *)

Lemma read_only_ret {A} (a : A) : read_only (ret a).
Proof. intros s. reflexivity. Qed.

Lemma read_only_undef {A} : read_only (@undef A).
Proof. intros s. exact I. Qed.

Lemma read_only_diverge {A} : read_only (@diverge A).
Proof. intros s. exact I. Qed.

Lemma read_only_bind {A B} (m : M A) (k : A -> M B) :
  read_only m -> (forall a, read_only (k a)) -> read_only (bind m k).
Proof.
  intros Hm Hk s. unfold bind. specialize (Hm s).
  destruct (m s) as [a s'| |]; try exact I.
  subst s'. apply Hk.
Qed.

Lemma read_only_readl off : read_only (readl off).
Proof. intros s. reflexivity. Qed.

Lemma read_only_udiv n d : read_only (udiv n d).
Proof.
  unfold udiv. destruct (d =? 0); [apply read_only_undef | apply read_only_ret].
Qed.

Lemma read_only_shl_int x n : read_only (shl_int x n).
Proof.
  unfold shl_int.
  destruct ((0 <=? n) && (n <? 31)); [apply read_only_ret | apply read_only_undef].
Qed.

Lemma read_only_if {A} (b : bool) (m1 m2 : M A) :
  read_only m1 -> read_only m2 -> read_only (if b then m1 else m2).
Proof. now destruct b. Qed.

Create HintDb ro.

#[local] Hint Resolve read_only_ret read_only_undef read_only_diverge
  read_only_readl read_only_udiv read_only_shl_int : ro.

Ltac ro_step :=
  first [ apply read_only_bind; [ | intro ]
        | apply read_only_if
        | unfold do_div, DIV_ROUND_UP; solve [ auto with ro ] ].

Section ReadOnlyOps.

Variable cb : Z -> M Z.
Hypothesis cb_ro : forall i, read_only (cb i).

Lemma read_only_get_fin clk : read_only (npcm_clk_get_fin cb clk).
Proof. unfold npcm_clk_get_fin. repeat ro_step; auto with ro. Qed.

Lemma read_only_get_fout i : read_only (npcm_clk_get_fout cb i).
Proof.
  unfold npcm_clk_get_fout. destruct (npcm_clk_get i); auto with ro.
  pose proof read_only_get_fin. repeat ro_step; auto with ro.
Qed.

Lemma read_only_get_pll_rate i : read_only (npcm_clk_get_pll_rate cb i).
Proof.
  unfold npcm_clk_get_pll_rate. destruct (npcm_clk_get i); auto with ro.
  pose proof read_only_get_fin. repeat ro_step; auto with ro.
Qed.

Lemma read_only_npcm_clk_get_rate i : read_only (npcm_clk_get_rate cb i).
Proof.
  unfold npcm_clk_get_rate.
  pose proof read_only_get_fout. pose proof read_only_get_pll_rate.
  repeat ro_step; auto with ro.
Qed.

End ReadOnlyOps.

Lemma read_only_clk_get_rate n : forall i, read_only (clk_get_rate n i).
Proof.
  induction n as [|n IH]; intros i; cbn [clk_get_rate].
  - apply read_only_diverge.
  - now apply read_only_npcm_clk_get_rate.
Qed.


(** *** The clock identifiers *)

Lemma distinct_NoDup l : distinct l = true -> NoDup l.
Proof.
  induction l as [|x r IH]; cbn [distinct]; intros H.
  - constructor.
  - apply andb_prop in H. destruct H as [Hx Hr]. constructor.
    + intros Hin. apply negb_true_iff in Hx.
      assert (existsb (Z.eqb x) r = true) as E.
      { apply existsb_exists. exists x. split; [exact Hin | apply Z.eqb_refl]. }
      congruence.
    + now apply IH.
Qed.

Lemma ids_neq (i j : nat) (a b : Z) :
  nth_error clk_ids i = Some a -> nth_error clk_ids j = Some b ->
  i <> j -> a <> b.
Proof.
  intros Ha Hb Hij E. subst b. apply Hij.
  pose proof ids_ok as H. unfold ids_wf in H.
  apply andb_prop in H. destruct H as [H _].
  apply andb_prop in H. destruct H as [H _].
  apply distinct_NoDup in H.
  apply (proj1 (NoDup_nth_error clk_ids) H).
  - apply nth_error_Some. congruence.
  - congruence.
Qed.

Lemma ids_range i : In i clk_ids -> 0 <= i < CLK_COUNT.
Proof.
  intros Hin. pose proof ids_ok as H. unfold ids_wf in H.
  apply andb_prop in H. destruct H as [H _].
  apply andb_prop in H. destruct H as [_ H].
  rewrite forallb_forall in H. specialize (H i Hin). lia.
Qed.

Lemma count_range : 0 <= CLK_COUNT < 2 ^ 31.
Proof.
  pose proof ids_ok as H. unfold ids_wf in H.
  apply andb_prop in H. destruct H as [_ H].
  pose proof (ids_range CLK_REFCLK (or_introl eq_refl)). lia.
Qed.

Lemma clk_u32 i : In i clk_ids -> u32 i = i.
Proof.
  intros H. apply ids_range in H. pose proof count_range.
  apply u32_small. lia.
Qed.

Lemma clk_u64 i : In i clk_ids -> u64 i = i.
Proof.
  intros H. apply ids_range in H. pose proof count_range.
  apply u64_small. lia.
Qed.

Lemma clk_s32 i : In i clk_ids -> s32 i = i.
Proof.
  intros H. apply ids_range in H. pose proof count_range.
  apply s32_small. lia.
Qed.

Ltac idx x :=
  lazymatch x with
  | CLK_REFCLK => constr:(0%nat)
  | CLK_PLL0 => constr:(1%nat)
  | CLK_PLL1 => constr:(2%nat)
  | CLK_PLL2 => constr:(3%nat)
  | CLK_PLL2DIV2 => constr:(4%nat)
  | CLK_AHB => constr:(5%nat)
  | CLK_APB2 => constr:(6%nat)
  | CLK_APB5 => constr:(7%nat)
  | CLK_UART1 => constr:(8%nat)
  | CLK_UART2 => constr:(9%nat)
  | CLK_SDHC => constr:(10%nat)
  end.

Ltac id_neq :=
  lazymatch goal with
  | |- ?a <> ?b =>
      let i := idx a in
      let j := idx b in
      apply (ids_neq i j a b); [reflexivity | reflexivity | discriminate]
  end.

Ltac in_ids :=
  unfold clk_ids; cbn [In]; repeat first [left; reflexivity | right].

(** Decide the comparisons of identifiers and drop the conversions
    that leave an identifier unchanged. *)
Ltac ids_simpl :=
  repeat match goal with
  | |- context [u32 ?a] => rewrite (clk_u32 a) by in_ids
  | |- context [u64 ?a] => rewrite (clk_u64 a) by in_ids
  | |- context [s32 ?a] => rewrite (clk_s32 a) by in_ids
  | |- context [?a =? ?a] => rewrite (Z.eqb_refl a)
  | |- context [?a =? ?b] => rewrite (proj2 (Z.eqb_neq a b)) by id_neq
  end.

(** The table with the conversions of its initializers carried out. *)
Lemma npcm8xx_clks_eq :
  npcm8xx_clks =
  [ mk_clk CLK_PLL0     CLK_REFCLK   0x0C 0xFFFFFFFF 0xFFFFFFFF 0xFFFFFFFF 1;
    mk_clk CLK_PLL1     CLK_REFCLK   0x10 0xFFFFFFFF 0xFFFFFFFF 0xFFFFFFFF 1;
    mk_clk CLK_PLL2     CLK_REFCLK   0x54 0xFFFFFFFF 0xFFFFFFFF 0xFFFFFFFF 1;
    mk_clk CLK_PLL2DIV2 CLK_REFCLK   0x54 0xFFFFFFFF 0xFFFFFFFF 0xFFFFFFFF 17;
    mk_clk CLK_AHB      (-1)         0x08 0x0C000000 0x00000007 0xFFFFFFFF 10;
    mk_clk CLK_APB2     CLK_AHB      0x2C 0x0C000000 0xFFFFFFFF 0xFFFFFFFF 5;
    mk_clk CLK_APB5     CLK_AHB      0x2C 0x00C00000 0xFFFFFFFF 0xFFFFFFFF 5;
    mk_clk CLK_UART1    CLK_PLL2DIV2 0x08 0x001F0000 0x00000300 3 2;
    mk_clk CLK_UART2    CLK_PLL2DIV2 0x58 0x0000F800 0x00000300 3 2;
    mk_clk CLK_SDHC     CLK_PLL0     0x08 0x0000F800 0x000000C0 0 2 ].
Proof. reflexivity. Qed.

(** Every mask of the table has a lowest set bit, so that the shift
    counts [ffs(mask) - 1] of the field codec are within 0..31. *)
Lemma table_shifts_defined clk :
  In clk npcm8xx_clks ->
  0 <= ffs clk.(div_mask) - 1 < 32 /\ 0 <= ffs clk.(sel_mask) - 1 < 32.
Proof.
  rewrite npcm8xx_clks_eq. cbn [In].
  intros H.
  repeat (destruct H as [<- | H]; [cbn; lia | ]).
  contradiction.
Qed.

Ltac table_cases H :=
  rewrite npcm8xx_clks_eq in H; cbn [In] in H;
  repeat (destruct H as [H | H]; [subst | ]); [ .. | contradiction ].

(** The identifiers of the table are unique: looking a row up by its
    identifier finds that row. *)
Lemma npcm_clk_get_row c :
  In c npcm8xx_clks -> npcm_clk_get (u32 c.(id)) = Some c.
Proof.
  intros H. table_cases H; unfold npcm_clk_get; rewrite npcm8xx_clks_eq;
    cbn [find id]; ids_simpl; reflexivity.
Qed.

Lemma clk_request_ok i : In i clk_ids -> clk_request (u64 i) = 0.
Proof.
  intros H. unfold clk_request, npcm_clk_request. rewrite (clk_u64 i H).
  apply ids_range in H. pose proof count_range.
  rewrite u64_small by lia.
  destruct (Z.leb_spec CLK_COUNT i); [lia | reflexivity].
Qed.

Lemma clk_request_einval : clk_request (u64 (- EINVAL)) = - EINVAL.
Proof.
  unfold clk_request, npcm_clk_request. pose proof count_range.
  rewrite (u64_small CLK_COUNT) by lia.
  change (u64 (- EINVAL)) with 18446744073709551594.
  destruct (Z.leb_spec CLK_COUNT 18446744073709551594); [reflexivity | lia].
Qed.

(** *** Termination of the rate resolver *)

Lemma terminates_bind {A B} (m : M A) (k : A -> M B) :
  terminates m -> (forall a, terminates (k a)) -> terminates (bind m k).
Proof.
  intros Hm Hk s. unfold bind. specialize (Hm s).
  destruct (m s) as [a s'| |]; [apply Hk | discriminate | congruence].
Qed.

Lemma terminates_ret {A} (a : A) : terminates (ret a).
Proof. intros s. discriminate. Qed.

Lemma terminates_undef {A} : terminates (@undef A).
Proof. intros s. discriminate. Qed.

Lemma terminates_readl off : terminates (readl off).
Proof. intros s. discriminate. Qed.

Lemma terminates_udiv n d : terminates (udiv n d).
Proof.
  unfold udiv. destruct (d =? 0); [apply terminates_undef | apply terminates_ret].
Qed.

Lemma terminates_shl_int x n : terminates (shl_int x n).
Proof.
  unfold shl_int.
  destruct ((0 <=? n) && (n <? 31)); [apply terminates_ret | apply terminates_undef].
Qed.

Lemma terminates_if {A} (b : bool) (m1 m2 : M A) :
  terminates m1 -> terminates m2 -> terminates (if b then m1 else m2).
Proof. now destruct b. Qed.

Create HintDb term.

#[local] Hint Resolve terminates_ret terminates_undef terminates_readl
  terminates_udiv terminates_shl_int : term.

Ltac term_step :=
  first [ assumption
        | apply terminates_bind; [ | intro ]
        | apply terminates_if
        | unfold do_div, DIV_ROUND_UP; solve [ auto with term ] ].

(** The input frequency is resolved within the budget when the parent's
    rate is: the fixed parent of a fixed-source node, any clock of the
    selector map otherwise. *)
Lemma terminates_get_fin cb clk :
  (has_flag clk.(flags) FIXED_SRC = true ->
   terminates (cb (u64 clk.(parent_id)))) ->
  (has_flag clk.(flags) FIXED_SRC = false ->
   forall e, In e (if clk.(sel_mask) =? CPUCKSEL then npcm8xx_cpu_clksel_map
                   else npcm8xx_clksel_map) ->
             terminates (cb (u64 (s32 e.(clkid))))) ->
  terminates (npcm_clk_get_fin cb clk).
Proof.
  intros Hfix Hmux s. unfold npcm_clk_get_fin.
  destruct (has_flag (flags clk) FIXED_SRC).
  - unfold bind, ret.
    destruct (clk_request (u64 (parent_id clk)) =? 0); [ | discriminate].
    now apply Hfix.
  - unfold bind, ret, readl, clksel_to_clkid.
    set (map := if sel_mask clk =? CPUCKSEL then _ else _) in *.
    assert (firstn CLK_MAP_SIZE map = map) as ->.
    { unfold map. now destruct (sel_mask clk =? CPUCKSEL). }
    destruct (find _ map) as [e|] eqn:E.
    + apply find_some in E. destruct E as [Hin _].
      destruct (clk_request _ =? 0); [ | discriminate].
      now apply Hmux.
    + rewrite clk_request_einval. discriminate.
Qed.

Lemma terminates_get_fout cb i :
  (forall clk, npcm_clk_get i = Some clk ->
               terminates (npcm_clk_get_fin cb clk)) ->
  terminates (npcm_clk_get_fout cb i).
Proof.
  intros Hfin. unfold npcm_clk_get_fout.
  destruct (npcm_clk_get i) as [clk|]; [ | apply terminates_ret].
  specialize (Hfin clk eq_refl).
  repeat term_step; auto with term.
Qed.

Lemma clk_get_rate_refclk n : clk_get_rate (S n) CLK_REFCLK = ret REFCLK_25M.
Proof.
  cbn [clk_get_rate]. unfold npcm_clk_get_rate. now rewrite Z.eqb_refl.
Qed.

(** *** Evaluating the resolver on the rows of the table *)

Ltac id_absurd H :=
  lazymatch type of H with
  | ?a = ?b =>
      let i := idx a in
      let j := idx b in
      exact (False_ind _ (ids_neq i j a b eq_refl eq_refl ltac:(discriminate) H))
  end.

(** Split [H : In x l] for a literal list [l] of identifiers, closing
    the cases that equate two different identifiers. *)
Ltac id_cases H :=
  cbn [In pll_ids settable_ids readable_ids app] in H;
  repeat (destruct H as [H | H];
          [ lazymatch type of H with
            | ?a = ?b => first [ id_absurd H | subst b | idtac ]
            end | ]);
  [ .. | contradiction ].

Ltac eval_flags :=
  repeat match goal with
  | |- context [has_flag ?f ?g] =>
      let v := eval vm_compute in (has_flag f g) in
      lazymatch v with
      | true => change (has_flag f g) with true
      | false => change (has_flag f g) with false
      end
  end.

(** Look the row of a known identifier up. *)
Ltac eval_get :=
  unfold npcm_clk_get; rewrite npcm8xx_clks_eq; cbn [find id]; ids_simpl;
  cbv beta iota.

Lemma get_fin_fixed cb clk s :
  has_flag clk.(flags) FIXED_SRC = true -> In clk.(parent_id) clk_ids ->
  npcm_clk_get_fin cb clk s = cb clk.(parent_id) s.
Proof.
  intros Hf Hp. unfold npcm_clk_get_fin. rewrite Hf. unfold bind, ret.
  rewrite clk_request_ok by exact Hp. cbn [Z.eqb].
  now rewrite clk_u64.
Qed.

Lemma pll_fields_bound val :
  0 <= pll_indv val <= 63 /\ 0 <= pll_fbdv val <= 4095 /\
  0 <= pll_otdv1 val <= 7 /\ 0 <= pll_otdv2 val <= 7.
Proof.
  unfold pll_indv, pll_fbdv, pll_otdv1, pll_otdv2, FIELD_GET.
  repeat split;
    try (apply field_get_bound; discriminate);
    match goal with
    | |- field_get ?m _ <= _ => apply (proj2 (field_get_bound m val ltac:(discriminate)))
    end.
Qed.

(** The arithmetic of [npcm_clk_get_pll_rate] after the input frequency
    and the control word have been read: no intermediate value wraps. *)
Lemma pll_calc (val : Z) (post : bool) (s : regs) :
  (r <- do_div (u64 (REFCLK_25M * FIELD_GET PLLCON_FBDV val))
               (u64 (FIELD_GET PLLCON_INDV val * FIELD_GET PLLCON_OTDV1 val
                     * FIELD_GET PLLCON_OTDV2 val)) ;;
   r <- (if post then do_div r 2 else ret r) ;;
   ret r) s
  = lift_opt (pll_rate val post) s.
Proof.
  pose proof (pll_fields_bound val) as (Hi & Hf & H1 & H2).
  unfold pll_rate, spec_pll_output.
  fold (pll_indv val) (pll_fbdv val) (pll_otdv1 val) (pll_otdv2 val).
  set (indv := pll_indv val) in *. set (fbdv := pll_fbdv val) in *.
  set (otdv1 := pll_otdv1 val) in *. set (otdv2 := pll_otdv2 val) in *.
  assert (0 <= indv * otdv1 <= 441) as Hp' by nia.
  assert (0 <= indv * otdv1 * otdv2 <= 3087) as Hp by nia.
  unfold REFCLK_25M in *.
  assert (0 <= 25000000 * fbdv <= 102375000000) as Hn by lia.
  unfold do_div, udiv, bind.
  rewrite (u64_small (indv * otdv1 * otdv2)) by lia.
  rewrite (u32_small (indv * otdv1 * otdv2)) by lia.
  rewrite !(u64_small (25000000 * fbdv)) by lia.
  destruct (Z.eqb_spec (indv * otdv1 * otdv2) 0) as [E|E]; [reflexivity | ].
  assert (0 <= 25000000 * fbdv / (indv * otdv1 * otdv2) <= 102375000000) as Hq.
  { split; [apply Z.div_pos; lia | ].
    apply Z.div_le_upper_bound; nia. }
  unfold ret at 1. destruct post; cbn [lift_opt]; [ | reflexivity].
  rewrite u64_small by lia. reflexivity.
Qed.

(** A PLL node: a row the dispatcher sends to [npcm_clk_get_pll_rate]. *)
Lemma pll_eval clk n s :
  In clk npcm8xx_clks -> In clk.(id) pll_ids ->
  npcm_clk_get_fin (clk_get_rate (S n)) clk s = Ret REFCLK_25M s /\
  npcm_clk_get_pll_rate (clk_get_rate (S n)) (u32 clk.(id)) s
  = lift_opt (pll_rate (reg s clk.(reg_clkdiv))
                       (has_flag clk.(flags) POST_DIV2)) s.
Proof.
  intros Hin Hpll.
  assert (npcm_clk_get_fin (clk_get_rate (S n)) clk s = Ret REFCLK_25M s) as Hfin.
  { table_cases Hin; cbn [id] in Hpll; id_cases Hpll;
      (rewrite get_fin_fixed; [ | reflexivity | cbn [parent_id]; in_ids ]);
      cbn [parent_id]; now rewrite clk_get_rate_refclk. }
  split; [exact Hfin | ].
  unfold npcm_clk_get_pll_rate. rewrite (npcm_clk_get_row clk Hin).
  unfold bind at 1. rewrite Hfin.
  unfold bind at 1. unfold readl at 1. fold (reg s (reg_clkdiv clk)).
  apply pll_calc.
Qed.

(** *** The dispatcher *)

Lemma get_rate_pll cb i :
  In i pll_ids -> npcm_clk_get_rate cb i = npcm_clk_get_pll_rate cb (u32 i).
Proof.
  intros H. unfold npcm_clk_get_rate. id_cases H; ids_simpl; reflexivity.
Qed.

Lemma get_rate_generic cb i :
  In i [CLK_AHB; CLK_APB2; CLK_APB5] ->
  npcm_clk_get_rate cb i = npcm_clk_get_fout cb (u32 i).
Proof.
  intros H. unfold npcm_clk_get_rate. id_cases H; ids_simpl; reflexivity.
Qed.

Lemma get_rate_default cb i :
  ~ In i readable_ids -> npcm_clk_get_rate cb i = ret (u64 (- ENOSYS)).
Proof.
  intros H. unfold npcm_clk_get_rate.
  repeat match goal with
  | |- context [i =? ?x] =>
      destruct (Z.eqb_spec i x);
      [ exfalso; apply H; subst i; unfold readable_ids, pll_ids;
        cbn [In app]; tauto | ]
  end.
  reflexivity.
Qed.

Lemma set_rate_settable cb i rate :
  In i settable_ids ->
  npcm_clk_set_rate cb i rate = (fout <- npcm_clk_set_fout cb (u32 i) rate ;; ret fout).
Proof.
  intros H. unfold npcm_clk_set_rate. id_cases H; ids_simpl; reflexivity.
Qed.

Lemma set_rate_default cb i rate :
  ~ In i settable_ids -> npcm_clk_set_rate cb i rate = ret (u64 (- ENOSYS)).
Proof.
  intros H. unfold npcm_clk_set_rate.
  repeat match goal with
  | |- context [i =? ?x] =>
      destruct (Z.eqb_spec i x);
      [ exfalso; apply H; subst i; unfold settable_ids; cbn [In]; tauto | ]
  end.
  reflexivity.
Qed.

Ltac pick_row := (left; reflexivity) + (right; pick_row).

(** Every identifier but the reference oscillator has a row. *)
Lemma row_of_id i :
  In i clk_ids -> i <> CLK_REFCLK ->
  exists clk, In clk npcm8xx_clks /\ clk.(id) = i.
Proof.
  intros H Hne. unfold clk_ids in H. cbn [In] in H.
  rewrite npcm8xx_clks_eq.
  repeat (destruct H as [H | H];
          [ subst i;
            first [ congruence
                  | eexists; split; [ cbn [In]; pick_row | ]; reflexivity ] | ]).
  contradiction.
Qed.

Lemma pll_ids_known i : In i pll_ids -> In i clk_ids /\ i <> CLK_REFCLK.
Proof.
  intros H. split.
  - id_cases H; in_ids.
  - id_cases H; id_neq.
Qed.

(** The rate of a PLL node, as the uclass resolves it. *)
Lemma clk_get_rate_pll clk n s :
  In clk npcm8xx_clks -> In clk.(id) pll_ids ->
  clk_get_rate (S (S n)) clk.(id) s
  = lift_opt (pll_rate (reg s clk.(reg_clkdiv))
                       (has_flag clk.(flags) POST_DIV2)) s.
Proof.
  intros Hin Hpll. cbn [clk_get_rate].
  rewrite get_rate_pll by exact Hpll.
  apply (pll_eval clk n s Hin Hpll).
Qed.

(** *** Termination *)

Lemma terminates_lift_opt {A} (o : option A) : terminates (lift_opt o).
Proof. destruct o; [apply terminates_ret | apply terminates_undef]. Qed.

Lemma terminates_pll i n : In i pll_ids -> terminates (clk_get_rate (S (S n)) i).
Proof.
  intros H s. destruct (pll_ids_known i H) as [Hk Hne].
  destruct (row_of_id i Hk Hne) as (clk & Hin & <-).
  rewrite clk_get_rate_pll by assumption.
  apply terminates_lift_opt.
Qed.

Lemma terminates_ahb n : terminates (clk_get_rate (S (S (S n))) CLK_AHB).
Proof.
  cbn [clk_get_rate]. rewrite get_rate_generic by (cbn [In]; auto).
  apply terminates_get_fout. intros clk. eval_get. intros [= <-].
  apply terminates_get_fin; cbn [flags sel_mask parent_id].
  - discriminate.
  - intros _ e He. change (7 =? CPUCKSEL) with true in He.
    unfold npcm8xx_cpu_clksel_map in He. cbn [In] in He.
    fold (clk_get_rate (S (S n))).
    destruct He as [<- | [<- | [<- | []]]]; cbn [clkid]; ids_simpl;
      apply terminates_pll; unfold pll_ids; cbn [In]; auto.
Qed.

Lemma terminates_apb i n :
  In i [CLK_APB2; CLK_APB5] -> terminates (clk_get_rate (S (S (S (S n)))) i).
Proof.
  intros H. cbn [clk_get_rate].
  rewrite get_rate_generic by (cbn [In] in *; tauto).
  apply terminates_get_fout. intros clk.
  fold (clk_get_rate (S (S (S n)))).
  id_cases H; eval_get; intros [= <-];
    (apply terminates_get_fin; cbn [flags sel_mask parent_id];
     [ intros _; ids_simpl; apply terminates_ahb | discriminate ]).
Qed.

(** Four nested calls resolve any clock: a budget of four or more is
    never exhausted. *)
Lemma clk_get_rate_terminates n i : terminates (clk_get_rate (4 + n) i).
Proof.
  destruct (in_dec Z.eq_dec i readable_ids) as [H | H].
  - id_cases H.
    + change (4 + n)%nat with (S (3 + n)). rewrite clk_get_rate_refclk.
      apply terminates_ret.
    + apply terminates_pll. unfold pll_ids. cbn [In]. auto.
    + apply terminates_pll. unfold pll_ids. cbn [In]. auto.
    + apply terminates_pll. unfold pll_ids. cbn [In]. auto.
    + apply terminates_pll. unfold pll_ids. cbn [In]. auto.
    + apply terminates_ahb.
    + apply terminates_apb. cbn [In]. auto.
    + apply terminates_apb. cbn [In]. auto.
  - change (4 + n)%nat with (S (3 + n)). cbn [clk_get_rate].
    rewrite get_rate_default by exact H. apply terminates_ret.
Qed.

Lemma get_rate_terminates i : terminates (get_rate i).
Proof. exact (clk_get_rate_terminates 0 i). Qed.

(** ** The rate resolver *)

(** C9.  Resolving a rate performs no register write.  Whatever the
    budget, the input-frequency resolver, the generic divider resolver,
    the PLL resolver and the dispatcher leave the register block as they
    found it (same cells, same list of [writel] accesses); and [get_rate]
    on any identifier either returns in the state it started from or
    stops at a division by zero: it never exhausts its budget. *)
Theorem get_rate_writes_nothing :
  (forall budget clk i,
      read_only (npcm_clk_get_fin (clk_get_rate budget) clk) /\
      read_only (npcm_clk_get_fout (clk_get_rate budget) i) /\
      read_only (npcm_clk_get_pll_rate (clk_get_rate budget) i) /\
      read_only (npcm_clk_get_rate (clk_get_rate budget) i)) /\
  (forall i s, (exists v, get_rate i s = Ret v s) \/ get_rate i s = Undef).
Proof.
  split.
  - intros budget clk i.
    pose proof (read_only_clk_get_rate budget) as Hcb.
    repeat split.
    + now apply read_only_get_fin.
    + now apply read_only_get_fout.
    + now apply read_only_get_pll_rate.
    + now apply read_only_npcm_clk_get_rate.
  - intros i s.
    pose proof (read_only_clk_get_rate 4 i s) as Hro.
    pose proof (get_rate_terminates i s) as Hterm.
    change (clk_get_rate 4 i s) with (get_rate i s) in Hro.
    destruct (get_rate i s) as [v s'| |].
    + subst s'. left. now exists v.
    + now right.
    + congruence.
Qed.

(** C5.  The dispatcher answers [-ENOSYS] (as an [unsigned long],
    2^64 - 38) for every identifier it has no case for: [get_rate] for
    any identifier other than the reference, the PLLs, AHB, APB2 and
    APB5, [set_rate] for any identifier other than SDHC, UART1 and
    UART2.  The register block is untouched. *)
Theorem unmodeled_id_not_implemented i j rate s :
  ~ In i readable_ids -> ~ In j settable_ids ->
  get_rate i s = Ret (u64 (- ENOSYS)) s /\
  set_rate j rate s = Ret (u64 (- ENOSYS)) s /\
  u64 (- ENOSYS) = 2 ^ 64 - 38.
Proof.
  intros Hi Hj. unfold get_rate, set_rate.
  rewrite get_rate_default by exact Hi.
  rewrite set_rate_default by exact Hj.
  repeat split.
Qed.

(** C1.  For every PLL node (a row of the table the dispatcher sends to
    the PLL resolver) whose divider product is not zero: the input
    frequency is the 25 MHz reference; the resolver reads the node's
    control register, takes the four sub-fields and returns
    (input x feedback) / (inputDivider x outputDivider1 x outputDivider2)
    as an exact integer quotient (the 64-bit product does not wrap),
    halved once more when POST_DIV2 is set.  With the fields 1, 64, 2, 1
    that is 800,000,000 Hz, and 400,000,000 Hz under POST_DIV2. *)
Theorem pll_rate_formula clk s :
  In clk npcm8xx_clks -> In clk.(id) pll_ids ->
  let val := reg s clk.(reg_clkdiv) in
  let indv := FIELD_GET PLLCON_INDV val in
  let fbdv := FIELD_GET PLLCON_FBDV val in
  let otdv1 := FIELD_GET PLLCON_OTDV1 val in
  let otdv2 := FIELD_GET PLLCON_OTDV2 val in
  let post := has_flag clk.(flags) POST_DIV2 in
  indv * otdv1 * otdv2 <> 0 ->
  npcm_clk_get_fin (clk_get_rate tree_depth) clk s = Ret REFCLK_25M s /\
  npcm_clk_get_pll_rate (clk_get_rate tree_depth) (u32 clk.(id)) s
  = Ret (spec_pll_output REFCLK_25M indv fbdv otdv1 otdv2 post) s /\
  get_rate clk.(id) s
  = Ret (spec_pll_output REFCLK_25M indv fbdv otdv1 otdv2 post) s /\
  (indv = 1 -> fbdv = 64 -> otdv1 = 2 -> otdv2 = 1 ->
   get_rate clk.(id) s = Ret (if post then 400000000 else 800000000) s).
Proof.
  intros Hin Hpll val indv fbdv otdv1 otdv2 post Hprod.
  destruct (pll_eval clk 2 s Hin Hpll) as [Hfin Hrate].
  fold val post in Hrate. unfold pll_rate in Hrate.
  fold indv fbdv otdv1 otdv2 in Hrate.
  unfold pll_indv, pll_fbdv, pll_otdv1, pll_otdv2 in Hrate.
  fold indv fbdv otdv1 otdv2 in Hrate.
  destruct (Z.eqb_spec (indv * otdv1 * otdv2) 0) as [E | _]; [contradiction | ].
  cbn [lift_opt] in Hrate. unfold ret in Hrate.
  assert (get_rate (id clk) s
          = Ret (spec_pll_output REFCLK_25M indv fbdv otdv1 otdv2 post) s) as Hget.
  { unfold get_rate. rewrite get_rate_pll by exact Hpll. exact Hrate. }
  repeat split; try assumption.
  intros -> -> -> ->. rewrite Hget. now destruct post.
Qed.

(** C7 (what the code does).  For every PLL node whose divider product
    is zero the resolver divides by zero: the C code has undefined
    behaviour there, it returns no error code. *)
Theorem pll_zero_divisor_undefined clk s :
  In clk npcm8xx_clks -> In clk.(id) pll_ids ->
  let val := reg s clk.(reg_clkdiv) in
  FIELD_GET PLLCON_INDV val * FIELD_GET PLLCON_OTDV1 val
    * FIELD_GET PLLCON_OTDV2 val = 0 ->
  npcm_clk_get_pll_rate (clk_get_rate tree_depth) (u32 clk.(id)) s = Undef /\
  get_rate clk.(id) s = Undef.
Proof.
  intros Hin Hpll val Hprod.
  destruct (pll_eval clk 2 s Hin Hpll) as [_ Hrate].
  fold val in Hrate. unfold pll_rate, pll_indv, pll_otdv1, pll_otdv2 in Hrate.
  rewrite Hprod in Hrate. cbn [Z.eqb lift_opt] in Hrate.
  split; [exact Hrate | ].
  unfold get_rate. rewrite get_rate_pll by exact Hpll. exact Hrate.
Qed.

(** The divisor arithmetic of [npcm_clk_get_fout] for a field of at most
    five bits: nothing wraps, the shift is defined, the divisor is not
    zero. *)
Lemma div_calc fl field parent_rate s :
  0 <= field <= 31 -> (has_flag fl DIV_TYPE1 = false -> field <= 30) ->
  (div <- (if has_flag fl DIV_TYPE1 then ret (u32 (field + 1))
           else d <- shl_int 1 field ;; ret (u32 d)) ;;
   let div := if has_flag fl PRE_DIV2 then u32 (div * 2) else div in
   udiv parent_rate div) s
  = Ret (parent_rate / spec_div fl field) s.
Proof.
  intros Hf Hpow. unfold spec_div, bind, shl_int, udiv.
  destruct (has_flag fl DIV_TYPE1).
  - unfold ret at 1. rewrite (u32_small (field + 1)) by lia.
    destruct (has_flag fl PRE_DIV2).
    + rewrite u32_small by lia.
      destruct (Z.eqb_spec ((field + 1) * 2) 0); [lia | ].
      unfold ret. do 2 f_equal. lia.
    + destruct (Z.eqb_spec (field + 1) 0); [lia | reflexivity].
  - specialize (Hpow eq_refl).
    assert (1 <= 2 ^ field <= 2 ^ 30) as Hp.
    { split; [ | apply Z.pow_le_mono_r; lia].
      pose proof (Z.pow_pos_nonneg 2 field). lia. }
    destruct (Z.leb_spec 0 field); [ | lia].
    destruct (Z.ltb_spec field 31); [ | lia].
    cbn [andb]. unfold ret at 1 2.
    rewrite Z.shiftl_1_l, (u32_small (2 ^ field)) by lia.
    destruct (has_flag fl PRE_DIV2).
    + rewrite u32_small by lia.
      destruct (Z.eqb_spec (2 ^ field * 2) 0); [lia | ].
      unfold ret. do 2 f_equal. lia.
    + destruct (Z.eqb_spec (2 ^ field) 0); [lia | reflexivity].
Qed.

(** A row with a divider mask has a field of at most five bits, of at
    most two when it is a power-of-two divider, and exactly one of the
    two divider types. *)
Lemma divider_field_bound clk w :
  In clk npcm8xx_clks -> clk.(div_mask) <> u32 NONE ->
  0 <= field_get clk.(div_mask) w <= 31 /\
  (has_flag clk.(flags) DIV_TYPE1 = false -> field_get clk.(div_mask) w <= 3) /\
  has_flag clk.(flags) DIV_TYPE1 = negb (has_flag clk.(flags) DIV_TYPE2).
Proof.
  intros Hin Hmask.
  pose proof (field_get_bound (div_mask clk) w) as Hb.
  table_cases Hin; cbn [div_mask flags reg_clkdiv] in *;
    try (exfalso; apply Hmask; reflexivity);
    specialize (Hb ltac:(discriminate));
    match type of Hb with
    | _ <= _ <= Z.shiftr ?m ?k =>
        let v := eval vm_compute in (Z.shiftr m k) in
        change (Z.shiftr m k) with v in Hb
    end;
    (split; [lia | split; [ | reflexivity]]);
    try lia; intros Habs; vm_compute in Habs; discriminate.
Qed.

Lemma spec_div_pos fl field : 0 <= field -> 0 < spec_div fl field.
Proof.
  intros Hf. unfold spec_div.
  assert (1 <= 2 ^ field) by (pose proof (Z.pow_pos_nonneg 2 field); lia).
  destruct (has_flag fl DIV_TYPE1), (has_flag fl PRE_DIV2); lia.
Qed.

(** [npcm_clk_get_fout] on a row with a divider mask: the input
    frequency over the divisor of the field. *)
Lemma get_fout_eval clk budget s :
  In clk npcm8xx_clks -> clk.(div_mask) <> u32 NONE ->
  npcm_clk_get_fout (clk_get_rate budget) (u32 clk.(id)) s
  = (fin <- npcm_clk_get_fin (clk_get_rate budget) clk ;;
     ret (fin / spec_div clk.(flags)
                         (field_get clk.(div_mask) (reg s clk.(reg_clkdiv))))) s.
Proof.
  intros Hin Hmask.
  destruct (divider_field_bound clk (reg s clk.(reg_clkdiv)) Hin Hmask)
    as (Hf & Hpow & _).
  unfold npcm_clk_get_fout. rewrite (npcm_clk_get_row clk Hin).
  unfold bind at 1 5.
  pose proof (read_only_get_fin _ (read_only_clk_get_rate budget) clk s) as Hro.
  destruct (npcm_clk_get_fin (clk_get_rate budget) clk s) as [fin s'| |];
    try reflexivity.
  subst s'. unfold bind at 1. unfold readl at 1.
  fold (reg s (reg_clkdiv clk)).
  apply div_calc; [exact Hf | intros H; specialize (Hpow H); lia].
Qed.

(** C2.  For every generic divided node (a row of the table with a
    divider mask): exactly one of DIV_TYPE1 and DIV_TYPE2 is set, and the
    resolver reads the node's divider register, takes the field under
    the divider mask and returns the node's input frequency divided,
    with truncation, by [field + 1] (DIV_TYPE1) or [2 ^ field]
    (DIV_TYPE2), the divisor doubled under PRE_DIV2.  It has no result of
    its own where the input frequency has none.  For AHB, APB2 and APB5
    this is what [get_rate] returns. *)
Theorem generic_divider_formula clk budget s :
  In clk npcm8xx_clks -> clk.(div_mask) <> u32 NONE ->
  let field := field_get clk.(div_mask) (reg s clk.(reg_clkdiv)) in
  let div := spec_div clk.(flags) field in
  has_flag clk.(flags) DIV_TYPE1 = negb (has_flag clk.(flags) DIV_TYPE2) /\
  0 < div /\
  npcm_clk_get_fout (clk_get_rate budget) (u32 clk.(id)) s
  = (fin <- npcm_clk_get_fin (clk_get_rate budget) clk ;; ret (fin / div)) s /\
  (In clk.(id) [CLK_AHB; CLK_APB2; CLK_APB5] ->
   npcm_clk_get_rate (clk_get_rate budget) clk.(id) s
   = (fin <- npcm_clk_get_fin (clk_get_rate budget) clk ;; ret (fin / div)) s).
Proof.
  intros Hin Hmask field div.
  destruct (divider_field_bound clk (reg s clk.(reg_clkdiv)) Hin Hmask)
    as (Hf & _ & Hflags).
  pose proof (get_fout_eval clk budget s Hin Hmask) as Hfout.
  repeat split; try assumption.
  - apply spec_div_pos. apply Hf.
  - intros Hid. rewrite get_rate_generic by exact Hid. exact Hfout.
Qed.

(** ** The selector maps *)

Lemma clksel_to_clkid_unknown sel mask :
  (forall e, In e (selector_map mask) -> e.(clksel) <> sel) ->
  clksel_to_clkid sel mask = - EINVAL.
Proof.
  intros H. unfold clksel_to_clkid. fold (selector_map mask).
  assert (firstn CLK_MAP_SIZE (selector_map mask) = selector_map mask) as ->.
  { unfold selector_map. now destruct (mask =? CPUCKSEL). }
  destruct (find _ (selector_map mask)) as [e|] eqn:E; [ | reflexivity].
  apply find_some in E. destruct E as [Hin Heq].
  apply Z.eqb_eq in Heq. now apply H in Hin.
Qed.

Lemma einval_no_clock : ~ In (- EINVAL) clk_ids.
Proof. intros H. apply ids_range in H. unfold EINVAL in H. lia. Qed.

Lemma get_fin_unknown cb clk s :
  has_flag clk.(flags) FIXED_SRC = false ->
  clksel_to_clkid (u8 (field_get clk.(sel_mask) (reg s CLKSEL))) clk.(sel_mask)
  = - EINVAL ->
  npcm_clk_get_fin cb clk s = Ret 0 s.
Proof.
  intros Hf Hsel. unfold npcm_clk_get_fin. rewrite Hf.
  unfold bind, readl, ret. fold (reg s CLKSEL). rewrite Hsel.
  now rewrite clk_request_einval.
Qed.

(** C6 (as the code has it).  For every mux domain and every encoding
    with no entry in the domain's selector map, [clksel_to_clkid]
    answers [-EINVAL], which is no clock identifier.  The input-frequency
    resolver does not pass that error on: the identifier fails the range
    check of [npcm_clk_request] and the resolver returns an input
    frequency of 0, so that the rate of AHB resolves to 0 when the CPU
    mux field holds such an encoding. *)
Theorem unknown_selector_encoding mask sel :
  (forall e, In e (selector_map mask) -> e.(clksel) <> sel) ->
  clksel_to_clkid sel mask = - EINVAL /\
  ~ In (clksel_to_clkid sel mask) clk_ids /\
  (forall clk budget s,
      clk.(sel_mask) = mask -> has_flag clk.(flags) FIXED_SRC = false ->
      u8 (field_get mask (reg s CLKSEL)) = sel ->
      npcm_clk_get_fin (clk_get_rate budget) clk s = Ret 0 s) /\
  (forall s,
      mask = CPUCKSEL -> u8 (field_get mask (reg s CLKSEL)) = sel ->
      get_rate CLK_AHB s = Ret 0 s).
Proof.
  intros H. pose proof (clksel_to_clkid_unknown sel mask H) as E.
  split; [exact E | ]. split; [rewrite E; apply einval_no_clock | ].
  assert (forall clk budget s,
      clk.(sel_mask) = mask -> has_flag clk.(flags) FIXED_SRC = false ->
      u8 (field_get mask (reg s CLKSEL)) = sel ->
      npcm_clk_get_fin (clk_get_rate budget) clk s = Ret 0 s) as Hfin.
  { intros clk budget s Hm Hf Hs. apply get_fin_unknown; [exact Hf | ].
    rewrite Hm, Hs. exact E. }
  split; [exact Hfin | ].
  intros s -> Hs.
  set (ahb := mk_clk CLK_AHB (-1) 0x08 0x0C000000 0x00000007 0xFFFFFFFF 10).
  assert (In ahb npcm8xx_clks) as Hin.
  { rewrite npcm8xx_clks_eq. cbn [In]. unfold ahb. tauto. }
  pose proof (get_fout_eval ahb tree_depth s Hin ltac:(discriminate)) as Hrate.
  unfold get_rate. rewrite get_rate_generic by (cbn [In]; auto).
  cbn [id ahb] in Hrate. rewrite Hrate.
  unfold bind. rewrite (Hfin ahb tree_depth s eq_refl eq_refl Hs).
  unfold ret. now rewrite Zdiv_0_l.
Qed.

(** ** The rate programmer *)

Lemma reg_select_source clk s :
  0 <= clk.(sel_mask) < 2 ^ 32 ->
  reg (select_source clk s) CLKSEL
  = field_set clk.(sel_mask) (reg s CLKSEL) clk.(sel_val).
Proof.
  intros Hm. unfold reg at 1, select_source. cbn [cells].
  rewrite Z.eqb_refl. now apply u32_field_set.
Qed.

Lemma reg_select_source_other clk s off :
  off <> CLKSEL -> reg (select_source clk s) off = reg s off.
Proof.
  intros Hne. unfold reg, select_source. cbn [cells].
  now rewrite (proj2 (Z.eqb_neq off CLKSEL) Hne).
Qed.

Lemma reg_program_div clk clkdiv s :
  0 <= clk.(div_mask) < 2 ^ 32 ->
  reg (program_div clk clkdiv s) clk.(reg_clkdiv)
  = field_set clk.(div_mask) (reg s clk.(reg_clkdiv)) clkdiv.
Proof.
  intros Hm. unfold reg at 1, program_div. cbn [cells].
  rewrite Z.eqb_refl. now apply u32_field_set.
Qed.

Lemma reg_program_div_other clk clkdiv s off :
  off <> clk.(reg_clkdiv) -> reg (program_div clk clkdiv s) off = reg s off.
Proof.
  intros Hne. unfold reg, program_div. cbn [cells].
  now rewrite (proj2 (Z.eqb_neq off _) Hne).
Qed.

(** [npcm_clk_set_fout] on a row of the table, step by step: the mux is
    programmed, the input frequency resolved in that state, the divisor
    computed and encoded, the divider field written, the quotient
    returned. *)
Lemma set_fout_eval clk budget rate s :
  In clk npcm8xx_clks ->
  npcm_clk_set_fout (clk_get_rate budget) (u32 clk.(id)) rate s =
  match npcm_clk_get_fin (clk_get_rate budget) clk (select_source clk s) with
  | Ret fin _ =>
      if rate =? 0 then Undef
      else
        let div := u32 (u64 (fin + rate - 1) / rate) in
        let clkdiv := if has_flag clk.(flags) DIV_TYPE1 then u32 (div - 1)
                      else u32 (ilog2 div) in
        if div =? 0 then Undef
        else Ret (fin / div) (program_div clk clkdiv (select_source clk s))
  | Undef => Undef
  | Diverge => Diverge
  end.
Proof.
  intros Hin. unfold npcm_clk_set_fout. rewrite (npcm_clk_get_row clk Hin).
  unfold bind at 1. unfold readl at 1. fold (reg s CLKSEL).
  unfold bind at 1. unfold writel at 1.
  change {| cells := _; written := _ |} with (select_source clk s).
  set (s1 := select_source clk s).
  unfold bind at 1.
  pose proof (read_only_get_fin _ (read_only_clk_get_rate budget) clk s1) as Hro.
  destruct (npcm_clk_get_fin (clk_get_rate budget) clk s1) as [fin s'| |];
    try reflexivity.
  subst s'. unfold bind at 1. unfold DIV_ROUND_UP, udiv.
  destruct (rate =? 0); [reflexivity | ].
  unfold ret at 1. unfold bind at 1. unfold readl at 1.
  fold (reg s1 (reg_clkdiv clk)).
  unfold bind at 1. unfold writel at 1.
  cbv zeta.
  match goal with
  | |- context [{| cells := ?c; written := ?w |}] =>
      change {| cells := c; written := w |}
        with (program_div clk (if has_flag (flags clk) DIV_TYPE1
                               then u32 (u32 (u64 (fin + rate - 1) / rate) - 1)
                               else u32 (ilog2 (u32 (u64 (fin + rate - 1) / rate)))) s1)
  end.
  destruct (u32 (u64 (fin + rate - 1) / rate) =? 0); reflexivity.
Qed.

Ltac eval_eqb :=
  repeat match goal with
  | |- context [?a =? ?b] =>
      let v := eval vm_compute in (a =? b) in
      lazymatch v with
      | true => change (a =? b) with true
      | false => change (a =? b) with false
      end
  end.

Lemma settable_facts clk :
  In clk npcm8xx_clks -> In clk.(id) settable_ids ->
  exists p, settable_row clk p.
Proof.
  intros Hin Hset. unfold settable_row.
  table_cases Hin; cbn [id] in Hset; id_cases Hset;
    eexists; (split; [rewrite npcm8xx_clks_eq; cbn [In]; pick_row | ]);
    cbn [id parent_id reg_clkdiv flags sel_mask sel_val div_mask];
    (split; [unfold pll_ids; cbn [In]; pick_row | ]);
    (split; [reflexivity | ]);
    repeat (split; [first [discriminate | reflexivity | lia] | ]);
    unfold clksel_to_clkid, npcm8xx_clksel_map;
    change (u8 3) with 3; change (u8 0) with 0; eval_eqb;
    cbn [firstn CLK_MAP_SIZE find clksel clkid]; eval_eqb; cbv beta iota;
    ids_simpl; reflexivity.
Qed.

(** The mux field of a settable row after it has been programmed. *)
Lemma select_source_field clk p s :
  settable_row clk p ->
  field_get clk.(sel_mask) (reg (select_source clk s) CLKSEL) = clk.(sel_val).
Proof.
  intros (_ & _ & _ & _ & _ & _ & _ & _ & _ & Hm & _ & _ & _ & Hv & _).
  rewrite reg_select_source by lia. now rewrite field_get_set.
Qed.

(** With its mux field on the programmed value, a settable row takes
    its input frequency from the declared parent. *)
Lemma settable_fin clk p budget s :
  settable_row clk p ->
  field_get clk.(sel_mask) (reg s CLKSEL) = clk.(sel_val) ->
  npcm_clk_get_fin (clk_get_rate budget) clk s
  = clk_get_rate budget clk.(parent_id) s.
Proof.
  intros (_ & Hp & Hid & _ & _ & _ & Hf & _ & _ & _ & _ & _ & _ & _ & _ & Hsel) Hfield.
  unfold npcm_clk_get_fin. rewrite Hf.
  unfold bind, readl, ret. fold (reg s CLKSEL). rewrite Hfield, Hsel.
  assert (In (parent_id clk) clk_ids) as Hk.
  { rewrite <- Hid. apply pll_ids_known, Hp. }
  rewrite clk_request_ok by exact Hk. cbn [Z.eqb].
  now rewrite clk_u64.
Qed.

(** ... which is the rate of a PLL, a function of the parent's control
    register alone. *)
Lemma settable_fin_pll clk p n s :
  settable_row clk p ->
  field_get clk.(sel_mask) (reg s CLKSEL) = clk.(sel_val) ->
  npcm_clk_get_fin (clk_get_rate (S (S n))) clk s
  = lift_opt (pll_rate (reg s p.(reg_clkdiv))
                       (has_flag p.(flags) POST_DIV2)) s.
Proof.
  intros Hrow Hfield. rewrite (settable_fin clk p) by assumption.
  destruct Hrow as (Hin & Hp & Hid & _). rewrite <- Hid.
  now apply clk_get_rate_pll.
Qed.

Lemma pll_rate_bound val post fin :
  pll_rate val post = Some fin -> 0 <= fin <= 102375000000.
Proof.
  unfold pll_rate, spec_pll_output, REFCLK_25M.
  pose proof (pll_fields_bound val) as (Hi & Hf & H1 & H2).
  set (indv := pll_indv val) in *. set (fbdv := pll_fbdv val) in *.
  set (otdv1 := pll_otdv1 val) in *. set (otdv2 := pll_otdv2 val) in *.
  assert (0 <= indv * otdv1 <= 441) as Hp' by nia.
  assert (0 <= indv * otdv1 * otdv2 <= 3087) as Hp by nia.
  destruct (Z.eqb_spec (indv * otdv1 * otdv2) 0) as [E|E]; [discriminate | ].
  assert (0 <= 25000000 * fbdv / (indv * otdv1 * otdv2) <= 102375000000) as Hq.
  { split; [apply Z.div_pos; lia | ].
    apply Z.div_le_upper_bound; nia. }
  set (q := 25000000 * fbdv / (indv * otdv1 * otdv2)) in *.
  intros H. assert (fin = if post then q / 2 else q) as -> by congruence.
  destruct post; [ | exact Hq].
  split; [apply Z.div_pos; lia | ].
  apply Z.div_le_upper_bound; lia.
Qed.

(** [set_rate] on a settable row in closed form. *)
Lemma set_rate_eval clk p rate s :
  In clk npcm8xx_clks -> In clk.(id) settable_ids -> settable_row clk p ->
  set_rate clk.(id) rate s =
  match pll_rate (reg s p.(reg_clkdiv)) (has_flag p.(flags) POST_DIV2) with
  | Some fin =>
      if rate =? 0 then Undef
      else
        let div := u32 (u64 (fin + rate - 1) / rate) in
        if div =? 0 then Undef
        else Ret (fin / div)
                 (program_div clk (u32 (div - 1)) (select_source clk s))
  | None => Undef
  end.
Proof.
  intros Hin Hset Hrow. unfold set_rate.
  rewrite set_rate_settable by exact Hset.
  unfold bind. rewrite set_fout_eval by exact Hin.
  unfold tree_depth.
  rewrite (settable_fin_pll clk p 1 _ Hrow (select_source_field clk p s Hrow)).
  destruct Hrow as (_ & _ & _ & Hpc & _ & _ & _ & Ht1 & _).
  rewrite reg_select_source_other by exact Hpc.
  destruct (pll_rate _ _) as [fin|]; cbn [lift_opt]; [ | reflexivity].
  unfold ret at 1. rewrite Ht1. cbv zeta.
  destruct (rate =? 0); [reflexivity | ].
  destruct (u32 (u64 (fin + rate - 1) / rate) =? 0); reflexivity.
Qed.

(** The rate of the declared parent of a settable row is the rate of a
    PLL, read from the parent's control register. *)
Lemma settable_parent_rate clk p s :
  settable_row clk p ->
  get_rate clk.(parent_id) s
  = lift_opt (pll_rate (reg s p.(reg_clkdiv)) (has_flag p.(flags) POST_DIV2)) s.
Proof.
  intros (Hin & Hp & Hid & _). rewrite <- Hid.
  exact (clk_get_rate_pll p 2 s Hin Hp).
Qed.

(** [DIV_ROUND_UP] gives a divisor other than zero only where the sum
    does not wrap and the input frequency is not zero; it is then the
    exact ceiling. *)
Lemma round_up_nonzero fin rate :
  0 <= fin < 2 ^ 64 -> 0 < rate < 2 ^ 64 ->
  u64 (fin + rate - 1) / rate <> 0 ->
  0 < fin /\ fin + rate - 1 < 2 ^ 64 /\
  u64 (fin + rate - 1) / rate = ceil_div fin rate.
Proof.
  intros Hf Hr Hne.
  destruct (Z.lt_ge_cases (fin + rate - 1) (2 ^ 64)) as [Hlt | Hge].
  - rewrite u64_small in * by lia.
    destruct (Z.eq_dec fin 0) as [-> | Hpos].
    + exfalso. apply Hne. apply Z.div_small. lia.
    + repeat split; [lia | lia].
  - exfalso. apply Hne. apply Z.div_small.
    unfold u64.
    replace (fin + rate - 1) with ((fin + rate - 1 - 2 ^ 64) + 1 * 2 ^ 64) by lia.
    rewrite Z_mod_plus_full, Z.mod_small by lia. lia.
Qed.

Lemma ceil_div_pos fin rate : 0 < fin -> 0 < rate -> 1 <= ceil_div fin rate.
Proof.
  intros Hf Hr. unfold ceil_div. apply Z.div_le_lower_bound; lia.
Qed.

(** The divider field of a settable row after [clkdiv] has been written. *)
Lemma program_div_field clk p clkdiv s :
  settable_row clk p ->
  field_get clk.(div_mask) (reg (program_div clk clkdiv s) clk.(reg_clkdiv))
  = clkdiv mod 32.
Proof.
  intros (_ & _ & _ & _ & _ & _ & _ & _ & _ & _ & Hm & _ & Hw & _).
  rewrite reg_program_div by lia. rewrite field_get_set, Hw by lia.
  change 31 with (Z.ones 5). now rewrite Z.land_ones by lia.
Qed.

(** C3 (as the code has it).  For every row of the table, with [fin]
    the input frequency resolved once the mux is programmed: when [fin]
    and the target are positive, their sum does not wrap and the ceiling
    of their quotient fits 32 bits, [npcm_clk_set_fout] computes the
    divisor [div = ceil (fin / rate)], which is at least 1 without any
    clamp; it encodes [div - 1] on a DIV_TYPE1 row and the truncating
    [log2 div] otherwise, writes the mux and then the divider field, and
    returns [fin / div], computed from the resolved input, not read
    back.  The rows [set_rate] accepts (SDHC, UART1, UART2) are
    DIV_TYPE1 rows: their divider field receives [div - 1] cut to its
    five bits, which is [div - 1] itself up to [div = 32]. *)
Theorem set_rate_divisor clk rate fin s :
  In clk npcm8xx_clks ->
  npcm_clk_get_fin (clk_get_rate tree_depth) clk (select_source clk s)
  = Ret fin (select_source clk s) ->
  0 < fin -> 0 < rate -> fin + rate - 1 < 2 ^ 64 -> ceil_div fin rate < 2 ^ 32 ->
  let div := ceil_div fin rate in
  let code := if has_flag clk.(flags) DIV_TYPE1 then div - 1 else Z.log2 div in
  let s2 := program_div clk code (select_source clk s) in
  1 <= div /\
  npcm_clk_set_fout (clk_get_rate tree_depth) (u32 clk.(id)) rate s
  = Ret (fin / div) s2 /\
  written s2
  = (clk.(reg_clkdiv),
     field_set clk.(div_mask) (reg (select_source clk s) clk.(reg_clkdiv)) code)
    :: (CLKSEL, field_set clk.(sel_mask) (reg s CLKSEL) clk.(sel_val))
    :: written s /\
  (In clk.(id) settable_ids ->
   has_flag clk.(flags) DIV_TYPE1 = true /\
   set_rate clk.(id) rate s = Ret (fin / div) s2 /\
   field_get clk.(div_mask) (reg s2 clk.(reg_clkdiv)) = (div - 1) mod 32 /\
   (div <= 32 -> field_get clk.(div_mask) (reg s2 clk.(reg_clkdiv)) = div - 1)).
Proof.
  intros Hin Hfin Hf Hr Hsum Hfit div code s2.
  pose proof (ceil_div_pos fin rate Hf Hr) as Hdiv. fold div in Hdiv, Hfit.
  assert (npcm_clk_set_fout (clk_get_rate tree_depth) (u32 clk.(id)) rate s
          = Ret (fin / div) s2) as Hfout.
  { rewrite set_fout_eval by exact Hin. rewrite Hfin.
    destruct (Z.eqb_spec rate 0); [lia | ].
    rewrite (u64_small (fin + rate - 1)) by lia.
    fold (ceil_div fin rate). fold div. cbv zeta.
    rewrite (u32_small div) by lia.
    destruct (Z.eqb_spec div 0); [lia | ].
    unfold s2, code.
    destruct (has_flag (flags clk) DIV_TYPE1).
    - now rewrite (u32_small (div - 1)) by lia.
    - unfold ilog2. destruct (Z.eqb_spec div 0); [lia | ].
      pose proof (Z.log2_nonneg div).
      assert (Z.log2 div < 32) by (apply Z.log2_lt_pow2; lia).
      now rewrite (u32_small (Z.log2 div)) by lia. }
  split; [exact Hdiv | ]. split; [exact Hfout | ]. split; [reflexivity | ].
  intros Hset.
  destruct (settable_facts clk Hin Hset) as [p Hrow].
  assert (has_flag clk.(flags) DIV_TYPE1 = true) as Ht1 by apply Hrow.
  pose proof (program_div_field clk p code (select_source clk s) Hrow) as Hfield.
  fold s2 in Hfield. unfold code in Hfield. rewrite Ht1 in Hfield.
  repeat split.
  - exact Ht1.
  - unfold set_rate. rewrite set_rate_settable by exact Hset.
    unfold bind. now rewrite Hfout.
  - exact Hfield.
  - intros Hle. rewrite Hfield. apply Z.mod_small. lia.
Qed.

(** What a returning [set_rate] has done on a settable row. *)
Lemma set_rate_ret clk p rate s r s1 :
  In clk npcm8xx_clks -> In clk.(id) settable_ids -> settable_row clk p ->
  set_rate clk.(id) rate s = Ret r s1 ->
  exists fin,
    pll_rate (reg s p.(reg_clkdiv)) (has_flag p.(flags) POST_DIV2) = Some fin /\
    rate <> 0 /\
    u32 (u64 (fin + rate - 1) / rate) <> 0 /\
    r = fin / u32 (u64 (fin + rate - 1) / rate) /\
    s1 = program_div clk (u32 (u32 (u64 (fin + rate - 1) / rate) - 1))
                     (select_source clk s).
Proof.
  intros Hin Hset Hrow. rewrite (set_rate_eval clk p) by assumption.
  destruct (pll_rate _ _) as [fin|]; [ | discriminate].
  destruct (Z.eqb_spec rate 0); [discriminate | ]. cbv zeta.
  destruct (Z.eqb_spec (u32 (u64 (fin + rate - 1) / rate)) 0); [discriminate | ].
  intros H. exists fin. repeat split; try assumption; congruence.
Qed.

(** The registers a settable row's input frequency depends on, after
    [set_rate] has run. *)
Lemma after_set_rate clk p clkdiv s :
  settable_row clk p ->
  let s1 := program_div clk clkdiv (select_source clk s) in
  field_get clk.(sel_mask) (reg s1 CLKSEL) = clk.(sel_val) /\
  reg s1 CLKSEL = field_set clk.(sel_mask) (reg s CLKSEL) clk.(sel_val) /\
  reg s1 p.(reg_clkdiv) = reg s p.(reg_clkdiv) /\
  reg s1 clk.(reg_clkdiv)
  = field_set clk.(div_mask) (reg (select_source clk s) clk.(reg_clkdiv)) clkdiv.
Proof.
  intros Hrow s1.
  pose proof (select_source_field clk p s Hrow) as Hfield.
  destruct Hrow as (_ & _ & _ & Hpc & Hpr & Hrc & _ & _ & _ & Hsm & Hdm & _).
  unfold s1. repeat split.
  - rewrite reg_program_div_other by (intros E; now apply Hrc). exact Hfield.
  - rewrite reg_program_div_other by (intros E; now apply Hrc).
    apply reg_select_source. lia.
  - rewrite reg_program_div_other by exact Hpr.
    now apply reg_select_source_other.
  - apply reg_program_div. lia.
Qed.

(** C4 (as the code has it).  After [set_rate] has returned on a
    settable row, [get_rate] on the same identifier answers [-ENOSYS]:
    the dispatcher has no case for SDHC, UART1 and UART2.  The generic
    divider resolver, asked directly, finds the input frequency [fin]
    unchanged and, as long as the divisor [ceil (fin / rate)] fits the
    five-bit field (at most 32), returns exactly the rate [set_rate]
    returned, [fin / ceil (fin / rate)]. *)
Theorem set_rate_then_get_rate clk rate s r s1 :
  In clk npcm8xx_clks -> In clk.(id) settable_ids ->
  0 <= rate < 2 ^ 64 ->
  set_rate clk.(id) rate s = Ret r s1 ->
  get_rate clk.(id) s1 = Ret (u64 (- ENOSYS)) s1 /\
  exists fin,
    npcm_clk_get_fin (clk_get_rate tree_depth) clk s1 = Ret fin s1 /\
    0 < fin /\ 0 < rate /\
    (ceil_div fin rate < 2 ^ 32 -> r = fin / ceil_div fin rate) /\
    (ceil_div fin rate <= 32 ->
     npcm_clk_get_fout (clk_get_rate tree_depth) (u32 clk.(id)) s1 = Ret r s1).
Proof.
  intros Hin Hset Hrate Hret.
  destruct (settable_facts clk Hin Hset) as [p Hrow].
  destruct (set_rate_ret clk p rate s r s1 Hin Hset Hrow Hret)
    as (fin & Hpll & Hr0 & Hd0 & -> & ->).
  set (d := u32 (u64 (fin + rate - 1) / rate)) in *.
  destruct (after_set_rate clk p (u32 (d - 1)) s Hrow) as (Hsel & _ & Hp & Hdiv).
  set (s1 := program_div clk (u32 (d - 1)) (select_source clk s)) in *.
  split.
  { unfold get_rate. rewrite get_rate_default; [reflexivity | ].
    intros H. cbn [In settable_ids] in Hset.
    destruct Hset as [E | [E | [E | []]]]; rewrite <- E in H; id_cases H. }
  pose proof (pll_rate_bound _ _ _ Hpll) as Hfb.
  assert (u64 (fin + rate - 1) / rate <> 0) as Hq.
  { intros E. apply Hd0. unfold d. now rewrite E. }
  destruct (round_up_nonzero fin rate ltac:(lia) ltac:(lia) Hq) as (Hf & Hsum & Hceil).
  assert (npcm_clk_get_fin (clk_get_rate tree_depth) clk s1 = Ret fin s1) as Hfin.
  { unfold tree_depth. rewrite (settable_fin_pll clk p 1 s1 Hrow Hsel).
    now rewrite Hp, Hpll. }
  exists fin. repeat split; try assumption; try lia.
  - intros Hfit. unfold d. rewrite Hceil.
    pose proof (ceil_div_pos fin rate Hf ltac:(lia)).
    now rewrite u32_small by lia.
  - intros Hfit.
    pose proof (ceil_div_pos fin rate Hf ltac:(lia)) as Hc.
    assert (d = ceil_div fin rate) as Hd.
    { unfold d. rewrite Hceil. apply u32_small. lia. }
    rewrite get_fout_eval by (exact Hin || apply Hrow).
    unfold bind. rewrite Hfin. unfold ret. do 2 f_equal.
    unfold s1. rewrite (program_div_field clk p) by exact Hrow.
    rewrite (u32_small (d - 1)), (Z.mod_small (d - 1)) by lia.
    destruct Hrow as (_ & _ & _ & _ & _ & _ & _ & Ht1 & Hpre & _).
    unfold spec_div. rewrite Ht1, Hpre. lia.
Qed.

(** C8.  For every settable row and every target: when [set_rate] has
    returned a rate, [set_rate] run again with the same target returns
    the same rate and leaves every register cell as the first run left
    it, in particular the mux field and the divider field. *)
Theorem set_rate_idempotent clk rate s r s1 :
  In clk npcm8xx_clks -> In clk.(id) settable_ids ->
  set_rate clk.(id) rate s = Ret r s1 ->
  exists s2,
    set_rate clk.(id) rate s1 = Ret r s2 /\
    (forall off, cells s2 off = cells s1 off) /\
    field_get clk.(sel_mask) (reg s2 CLKSEL)
    = field_get clk.(sel_mask) (reg s1 CLKSEL) /\
    field_get clk.(div_mask) (reg s2 clk.(reg_clkdiv))
    = field_get clk.(div_mask) (reg s1 clk.(reg_clkdiv)).
Proof.
  intros Hin Hset Hret.
  destruct (settable_facts clk Hin Hset) as [p Hrow].
  destruct (set_rate_ret clk p rate s r s1 Hin Hset Hrow Hret)
    as (fin & Hpll & Hr0 & Hd0 & -> & ->).
  set (d := u32 (u64 (fin + rate - 1) / rate)) in *.
  destruct (after_set_rate clk p (u32 (d - 1)) s Hrow) as (_ & Hsel & Hp & Hdiv).
  set (s1 := program_div clk (u32 (d - 1)) (select_source clk s)) in *.
  exists (program_div clk (u32 (d - 1)) (select_source clk s1)).
  assert (forall off,
             cells (program_div clk (u32 (d - 1)) (select_source clk s1)) off
             = cells s1 off) as Hcells.
  { intros off.
    destruct Hrow as (_ & _ & _ & _ & _ & Hrc & _ & _ & _ & Hsm & Hdm & _).
    unfold program_div at 1. cbn [cells].
    destruct (Z.eqb_spec off (reg_clkdiv clk)) as [-> | Hne].
    - rewrite reg_select_source_other by exact Hrc.
      rewrite Hdiv, field_set_idem by lia.
      unfold s1, program_div. cbn [cells]. now rewrite Z.eqb_refl.
    - unfold select_source at 1. cbn [cells].
      destruct (Z.eqb_spec off CLKSEL) as [-> | Hne'].
      + rewrite Hsel, field_set_idem by lia.
        unfold s1, program_div, select_source. cbn [cells].
        rewrite (proj2 (Z.eqb_neq CLKSEL (reg_clkdiv clk))) by congruence.
        now rewrite Z.eqb_refl.
      + reflexivity. }
  split; [ | split; [exact Hcells | ]].
  - rewrite (set_rate_eval clk p) by assumption.
    rewrite Hp, Hpll.
    destruct (Z.eqb_spec rate 0); [contradiction | ]. cbv zeta. fold d.
    destruct (Z.eqb_spec d 0); [contradiction | reflexivity].
  - unfold reg. now rewrite !Hcells.
Qed.

(** C10.  For every settable row of the table (SDHC, UART1, UART2) the
    selector value the row programs maps, through the selector map of the
    row's mask, to the row's declared parent, and with that value in the
    mux field [npcm_clk_get_fin] resolves the rate of the declared
    parent.  Whenever [set_rate] has returned on such a row, from any
    register block, the mux field of CLKSEL holds the row's selector
    value, whatever it held before; decoding the field gives the declared
    parent; the input frequency resolved from then on is the rate of the
    declared parent; and the rate the call returned was computed from
    that parent's rate, which the call has not changed. *)
Theorem settable_selector_parent clk :
  In clk npcm8xx_clks -> In clk.(id) settable_ids ->
  clksel_to_clkid (u8 clk.(sel_val)) clk.(sel_mask) = clk.(parent_id) /\
  (forall budget s,
      field_get clk.(sel_mask) (reg s CLKSEL) = clk.(sel_val) ->
      npcm_clk_get_fin (clk_get_rate budget) clk s
      = clk_get_rate budget clk.(parent_id) s) /\
  (forall rate s r s1,
      set_rate clk.(id) rate s = Ret r s1 ->
      field_get clk.(sel_mask) (reg s1 CLKSEL) = clk.(sel_val) /\
      clksel_to_clkid (u8 (field_get clk.(sel_mask) (reg s1 CLKSEL)))
                      clk.(sel_mask) = clk.(parent_id) /\
      (forall budget,
          npcm_clk_get_fin (clk_get_rate budget) clk s1
          = clk_get_rate budget clk.(parent_id) s1) /\
      exists fin,
        get_rate clk.(parent_id) s = Ret fin s /\
        get_rate clk.(parent_id) s1 = Ret fin s1 /\
        npcm_clk_get_fin (clk_get_rate tree_depth) clk s1 = Ret fin s1 /\
        r = fin / u32 (u64 (fin + rate - 1) / rate)).
Proof.
  intros Hin Hset. destruct (settable_facts clk Hin Hset) as [p Hrow].
  assert (clksel_to_clkid (u8 clk.(sel_val)) clk.(sel_mask) = clk.(parent_id))
    as Hmap by apply Hrow.
  split; [exact Hmap | ]. split.
  { intros budget s Hfield. now apply (settable_fin clk p). }
  intros rate s r s1 Hret.
  destruct (set_rate_ret clk p rate s r s1 Hin Hset Hrow Hret)
    as (fin & Hpll & _ & _ & -> & ->).
  set (d := u32 (u64 (fin + rate - 1) / rate)) in *.
  destruct (after_set_rate clk p (u32 (d - 1)) s Hrow) as (Hsel & _ & Hp & _).
  set (s1 := program_div clk (u32 (d - 1)) (select_source clk s)) in *.
  split; [exact Hsel | ]. split; [now rewrite Hsel | ].
  split; [intros budget; now apply (settable_fin clk p) | ].
  assert (get_rate clk.(parent_id) s1 = Ret fin s1) as Hpar.
  { rewrite (settable_parent_rate clk p s1 Hrow). now rewrite Hp, Hpll. }
  exists fin. split; [ | split; [exact Hpar | split; [ | reflexivity]]].
  - rewrite (settable_parent_rate clk p s Hrow). now rewrite Hpll.
  - unfold tree_depth. rewrite (settable_fin_pll clk p 1 s1 Hrow Hsel).
    now rewrite Hp, Hpll.
Qed.

(** ** Further properties of the driver *)

(** *** The field codec *)

Lemma land_lnot_disjoint a b : Z.land a b = 0 -> Z.land a (Z.lnot b) = a.
Proof. intros H. rewrite <- Z.sub_land_same_l, H. lia. Qed.

Lemma not32_disjoint m m' :
  0 <= m' < 2 ^ 32 -> Z.land m m' = 0 -> Z.land (not32 m) m' = m'.
Proof.
  intros Hm' H. unfold not32. rewrite u32_land, <- Z.land_assoc, land_ones32 by lia.
  rewrite Z.land_comm. apply land_lnot_disjoint. now rewrite Z.land_comm.
Qed.

Lemma field_set_outside m w v :
  0 <= m < 2 ^ 32 ->
  Z.land (field_set m w v) (not32 m) = Z.land w (not32 m).
Proof.
  intros Hm. unfold field_set.
  rewrite Z.land_lor_distr_l, <- !Z.land_assoc, Z.land_diag.
  rewrite (Z.land_comm m (not32 m)), not32_land, Z.land_0_r by exact Hm.
  apply Z.lor_0_r.
Qed.

(** A field written under one mask leaves the field under a disjoint
    mask as it was. *)
Lemma field_get_other m m' w v :
  0 <= m < 2 ^ 32 -> 0 <= m' < 2 ^ 32 -> Z.land m m' = 0 ->
  field_get m' (field_set m w v) = field_get m' w.
Proof.
  intros Hm Hm' Hd. unfold field_get, field_set. f_equal.
  rewrite Z.land_lor_distr_l, <- !Z.land_assoc, Hd, Z.land_0_r, Z.lor_0_r.
  now rewrite not32_disjoint.
Qed.

(** X1.  The field codec the driver writes out in place,
    [(w & mask) >> (ffs(mask) - 1)] and
    [w &= ~mask; w |= (v << (ffs(mask) - 1)) & mask], on any non-zero
    32-bit mask: a field reads back as the value written, cut to the
    width of the mask; the bits outside the mask keep their value; a
    field under a disjoint mask is not disturbed; writing the same value
    twice is writing it once; and the word built is a 32-bit word. *)
Theorem field_codec_laws m w v :
  0 < m < 2 ^ 32 ->
  field_get m (field_set m w v) = Z.land v (Z.shiftr m (ffs m - 1)) /\
  Z.land (field_set m w v) (not32 m) = Z.land w (not32 m) /\
  (forall m', 0 <= m' < 2 ^ 32 -> Z.land m m' = 0 ->
              field_get m' (field_set m w v) = field_get m' w) /\
  field_set m (field_set m w v) v = field_set m w v /\
  0 <= field_set m w v < 2 ^ 32.
Proof.
  intros Hm. repeat split.
  - now apply field_get_set.
  - apply field_set_outside. lia.
  - intros m' Hm' Hd. apply field_get_other; lia || assumption.
  - apply field_set_idem. lia.
  - rewrite <- (u32_field_set m w v) by lia. apply Z.mod_pos_bound. reflexivity.
  - rewrite <- (u32_field_set m w v) by lia. apply Z.mod_pos_bound. reflexivity.
Qed.

(** *** Looking a row up *)

Lemma npcm_clk_get_some k c :
  npcm_clk_get k = Some c -> In c npcm8xx_clks /\ u32 c.(id) = k.
Proof.
  intros H. apply find_some in H. destruct H as [Hin Heq].
  split; [exact Hin | now apply Z.eqb_eq].
Qed.

Lemma npcm_clk_get_none k :
  (forall c, In c npcm8xx_clks -> u32 c.(id) <> k) -> npcm_clk_get k = None.
Proof.
  intros H. destruct (npcm_clk_get k) as [c|] eqn:E; [ | reflexivity].
  apply npcm_clk_get_some in E. destruct E as [Hin Heq]. now apply H in Hin.
Qed.

Lemma refclk_has_no_row c : In c npcm8xx_clks -> u32 c.(id) <> u32 CLK_REFCLK.
Proof.
  intros H. table_cases H; cbn [id]; ids_simpl; id_neq.
Qed.

(** X2.  [npcm_clk_get] is a lookup by identifier: every row of the
    table is found under its own identifier (the identifiers of the
    table are unique), whatever is found is a row of the table carrying
    the key, and a key that no row carries gives NULL; the reference
    oscillator is such a key. *)
Theorem npcm_clk_get_lookup :
  (forall c, In c npcm8xx_clks -> npcm_clk_get (u32 c.(id)) = Some c) /\
  (forall k c, npcm_clk_get k = Some c -> In c npcm8xx_clks /\ u32 c.(id) = k) /\
  (forall k, (forall c, In c npcm8xx_clks -> u32 c.(id) <> k) ->
             npcm_clk_get k = None) /\
  npcm_clk_get (u32 CLK_REFCLK) = None.
Proof.
  split; [exact npcm_clk_get_row | ].
  split; [exact npcm_clk_get_some | ].
  split; [exact npcm_clk_get_none | ].
  apply npcm_clk_get_none. exact refclk_has_no_row.
Qed.

(** X3.  On a key without a row, the reference oscillator included, the
    generic resolver, the PLL resolver and the rate programmer return 0
    at once: no register is read into the result and none is written. *)
Theorem missing_row_returns_zero cb k rate s :
  (forall c, In c npcm8xx_clks -> u32 c.(id) <> k) ->
  npcm_clk_get_fout cb k s = Ret 0 s /\
  npcm_clk_get_pll_rate cb k s = Ret 0 s /\
  npcm_clk_set_fout cb k rate s = Ret 0 s.
Proof.
  intros H. apply npcm_clk_get_none in H.
  unfold npcm_clk_get_fout, npcm_clk_get_pll_rate, npcm_clk_set_fout.
  rewrite H. repeat split.
Qed.

(** *** The request check *)

Lemma request_rejects i :
  CLK_COUNT <= i -> npcm_clk_request i = - EINVAL.
Proof.
  intros H. unfold npcm_clk_request. pose proof count_range.
  rewrite u64_small by lia.
  destruct (Z.leb_spec CLK_COUNT i); [reflexivity | lia].
Qed.

(** X4.  [npcm_clk_request] accepts exactly the identifiers below
    [CLK_COUNT].  Every identifier of the header is accepted; an [int]
    error code stored in the [unsigned long] identifier (a negative
    value, sign-extended) is rejected with [-EINVAL]. *)
Theorem npcm_clk_request_bounds :
  (forall i, 0 <= i < 2 ^ 64 ->
             (npcm_clk_request i = 0 <-> i < CLK_COUNT) /\
             (npcm_clk_request i = - EINVAL <-> CLK_COUNT <= i)) /\
  (forall i, In i clk_ids -> npcm_clk_request (u64 i) = 0) /\
  (forall e, - 2 ^ 31 <= e < 0 -> npcm_clk_request (u64 e) = - EINVAL).
Proof.
  pose proof count_range as Hc. repeat split.
  - unfold npcm_clk_request. rewrite u64_small by lia.
    destruct (Z.leb_spec CLK_COUNT i); [discriminate | trivial].
  - intros Hlt. unfold npcm_clk_request. rewrite u64_small by lia.
    destruct (Z.leb_spec CLK_COUNT i); [lia | reflexivity].
  - unfold npcm_clk_request. rewrite u64_small by lia.
    destruct (Z.leb_spec CLK_COUNT i); [trivial | discriminate].
  - apply request_rejects.
  - intros i Hi. exact (clk_request_ok i Hi).
  - intros e He. apply request_rejects. unfold u64.
    replace e with ((e + 2 ^ 64) + (-1) * 2 ^ 64) by lia.
    rewrite Z_mod_plus_full, Z.mod_small by lia. lia.
Qed.

(** *** The selector maps *)

Lemma selector_map_cases mask e :
  In e (selector_map mask) ->
  (mask =? CPUCKSEL) = true /\
    (e = mk_map CLK_PLL0 CPUCKSEL_PLL0 \/ e = mk_map CLK_PLL1 CPUCKSEL_PLL1
     \/ e = mk_map CLK_PLL2 CPUCKSEL_PLL2)
  \/ (mask =? CPUCKSEL) = false /\
    (e = mk_map CLK_PLL0 CKSEL_PLL0 \/ e = mk_map CLK_PLL1 CKSEL_PLL1
     \/ e = mk_map CLK_PLL2DIV2 CKSEL_PLL2).
Proof.
  unfold selector_map. destruct (mask =? CPUCKSEL); cbn [In];
    intros [<- | [<- | [<- | []]]]; [left | left | left | right | right | right];
    split; auto.
Qed.

(** An encoding of the map decodes to the clock of its entry. *)
Lemma clksel_to_clkid_entry mask e :
  In e (selector_map mask) -> clksel_to_clkid e.(clksel) mask = e.(clkid).
Proof.
  intros H. apply selector_map_cases in H.
  unfold clksel_to_clkid, npcm8xx_cpu_clksel_map, npcm8xx_clksel_map.
  destruct H as [[-> H] | [-> H]]; destruct H as [-> | [-> | ->]];
    cbn [firstn CLK_MAP_SIZE find clksel clkid]; eval_eqb; cbv beta iota;
    ids_simpl; reflexivity.
Qed.

Lemma clksel_to_clkid_cases sel mask :
  clksel_to_clkid sel mask = - EINVAL \/
  exists e, In e (selector_map mask) /\ e.(clksel) = sel /\
            clksel_to_clkid sel mask = e.(clkid).
Proof.
  unfold clksel_to_clkid. fold (selector_map mask).
  assert (firstn CLK_MAP_SIZE (selector_map mask) = selector_map mask) as ->.
  { unfold selector_map. now destruct (mask =? CPUCKSEL). }
  destruct (find _ (selector_map mask)) as [e|] eqn:E; [ | now left].
  apply find_some in E. destruct E as [Hin Heq]. apply Z.eqb_eq in Heq.
  right. exists e. repeat split; try assumption.
  apply selector_map_cases in Hin.
  destruct Hin as [[_ H] | [_ H]]; destruct H as [-> | [-> | ->]];
    cbn [clkid]; ids_simpl; reflexivity.
Qed.

(** X5.  [clksel_to_clkid] decodes the selector maps: the encoding of
    every entry of a domain's map gives back the clock of that entry
    (no encoding is listed twice), and whatever it returns is [-EINVAL]
    or the clock of an entry with that encoding.  No encoding selects
    the reference oscillator: the values [CPUCKSEL_REFCLK] and
    [CKSEL_REFCLK], which the driver defines, decode to [-EINVAL] in
    their domains. *)
Theorem clksel_to_clkid_decodes mask :
  (forall e, In e (selector_map mask) ->
             clksel_to_clkid e.(clksel) mask = e.(clkid)) /\
  (forall sel, clksel_to_clkid sel mask = - EINVAL \/
               exists e, In e (selector_map mask) /\ e.(clksel) = sel /\
                         clksel_to_clkid sel mask = e.(clkid)) /\
  (forall sel, clksel_to_clkid sel mask <> CLK_REFCLK) /\
  clksel_to_clkid CPUCKSEL_REFCLK CPUCKSEL = - EINVAL /\
  (mask <> CPUCKSEL -> clksel_to_clkid CKSEL_REFCLK mask = - EINVAL).
Proof.
  split; [intros e; apply clksel_to_clkid_entry | ].
  split; [intros sel; apply clksel_to_clkid_cases | ].
  split.
  { intros sel E. destruct (clksel_to_clkid_cases sel mask) as [H | (e & Hin & _ & H)].
    - rewrite H in E. apply einval_no_clock. rewrite E. in_ids.
    - rewrite H in E. apply selector_map_cases in Hin.
      destruct Hin as [[_ Hc] | [_ Hc]]; destruct Hc as [-> | [-> | ->]];
        cbn [clkid] in E; id_absurd E. }
  split.
  - apply clksel_to_clkid_unknown. intros e He.
    apply selector_map_cases in He.
    destruct He as [[_ Hc] | [Hc _]]; [ | discriminate].
    destruct Hc as [-> | [-> | ->]]; discriminate.
  - intros Hne. apply clksel_to_clkid_unknown. intros e He.
    apply selector_map_cases in He.
    destruct He as [[Hc _] | [_ Hc]].
    + apply Z.eqb_eq in Hc. contradiction.
    + destruct Hc as [-> | [-> | ->]]; discriminate.
Qed.

(** *** A larger budget changes no result *)

Lemma refines_refl {A} (m : M A) : refines m m.
Proof. intros s _. reflexivity. Qed.

Lemma refines_bind {A B} (m m' : M A) (k k' : A -> M B) :
  refines m m' -> (forall a, refines (k a) (k' a)) ->
  refines (bind m k) (bind m' k').
Proof.
  intros Hm Hk s. unfold bind. intros Hne.
  assert (m s <> Diverge) as Hms.
  { intros E. rewrite E in Hne. now apply Hne. }
  rewrite (Hm s Hms). destruct (m s) as [a s1| |]; try reflexivity.
  now apply Hk.
Qed.

Lemma refines_if {A} (b : bool) (m1 m1' m2 m2' : M A) :
  refines m1 m1' -> refines m2 m2' ->
  refines (if b then m1 else m2) (if b then m1' else m2').
Proof. now destruct b. Qed.

Section RefinesOps.

Variables cb cb' : Z -> M Z.
Hypothesis cb_le : forall i, refines (cb i) (cb' i).

Lemma refines_get_fin clk :
  refines (npcm_clk_get_fin cb clk) (npcm_clk_get_fin cb' clk).
Proof.
  unfold npcm_clk_get_fin. apply refines_bind; [apply refines_refl | ].
  intros parent. apply refines_if; [apply cb_le | apply refines_refl].
Qed.

Lemma refines_get_fout i :
  refines (npcm_clk_get_fout cb i) (npcm_clk_get_fout cb' i).
Proof.
  unfold npcm_clk_get_fout. destruct (npcm_clk_get i); [ | apply refines_refl].
  apply refines_bind; [apply refines_get_fin | intros; apply refines_refl].
Qed.

Lemma refines_get_pll_rate i :
  refines (npcm_clk_get_pll_rate cb i) (npcm_clk_get_pll_rate cb' i).
Proof.
  unfold npcm_clk_get_pll_rate. destruct (npcm_clk_get i); [ | apply refines_refl].
  apply refines_bind; [apply refines_get_fin | intros; apply refines_refl].
Qed.

Lemma refines_npcm_clk_get_rate i :
  refines (npcm_clk_get_rate cb i) (npcm_clk_get_rate cb' i).
Proof.
  unfold npcm_clk_get_rate.
  repeat (apply refines_if; [try apply refines_refl | ]);
    try apply refines_refl.
  - apply refines_get_pll_rate.
  - apply refines_get_fout.
Qed.

End RefinesOps.

Lemma clk_get_rate_mono n : forall i, refines (clk_get_rate n i) (clk_get_rate (S n) i).
Proof.
  induction n as [|n IH]; intros i.
  - intros s H. now elim H.
  - cbn [clk_get_rate]. apply refines_npcm_clk_get_rate. exact IH.
Qed.

(** A PLL is resolved with a budget of two, AHB with a budget of three;
    more budget gives the same answer as [get_rate]. *)
Lemma clk_get_rate_pll_3 i s :
  In i pll_ids -> clk_get_rate 3 i s = get_rate i s.
Proof.
  intros H. symmetry. apply (clk_get_rate_mono 3 i s).
  now apply (terminates_pll i 1).
Qed.

Lemma clk_get_rate_ahb_3 s : clk_get_rate 3 CLK_AHB s = get_rate CLK_AHB s.
Proof.
  symmetry. apply (clk_get_rate_mono 3 CLK_AHB s). apply (terminates_ahb 0).
Qed.

(** *** Where the input frequency comes from *)

Lemma selector_map_clock mask e :
  In e (selector_map mask) -> In e.(clkid) pll_ids.
Proof.
  intros H. apply selector_map_cases in H. unfold pll_ids.
  destruct H as [[_ H] | [_ H]]; destruct H as [-> | [-> | ->]];
    cbn [clkid In]; tauto.
Qed.

Lemma get_fin_mux cb clk e s :
  has_flag clk.(flags) FIXED_SRC = false ->
  In e (selector_map clk.(sel_mask)) ->
  u8 (field_get clk.(sel_mask) (reg s CLKSEL)) = e.(clksel) ->
  npcm_clk_get_fin cb clk s = cb e.(clkid) s.
Proof.
  intros Hf He Hsel. unfold npcm_clk_get_fin. rewrite Hf.
  unfold bind, readl, ret. fold (reg s CLKSEL).
  rewrite Hsel, clksel_to_clkid_entry by exact He.
  assert (In (clkid e) clk_ids) as Hk.
  { apply pll_ids_known. now apply (selector_map_clock (sel_mask clk)). }
  rewrite clk_request_ok by exact Hk. cbn [Z.eqb]. now rewrite clk_u64.
Qed.

Lemma fixed_parent_known clk :
  In clk npcm8xx_clks -> has_flag clk.(flags) FIXED_SRC = true ->
  In clk.(parent_id) clk_ids.
Proof.
  intros Hin Hf. table_cases Hin; cbn [parent_id flags] in *;
    try (vm_compute in Hf; discriminate); in_ids.
Qed.

(** X6.  A fixed-source row of the table (the PLLs, APB2, APB5) takes
    its input frequency from its declared parent, whatever CLKSEL holds:
    the parent identifier passes the request check, so the resolver
    never falls back to 0 for these rows; the register block is not
    consulted. *)
Theorem fixed_source_input cb clk s :
  In clk npcm8xx_clks -> has_flag clk.(flags) FIXED_SRC = true ->
  In clk.(parent_id) clk_ids /\
  clk_request (u64 clk.(parent_id)) = 0 /\
  npcm_clk_get_fin cb clk s = cb clk.(parent_id) s.
Proof.
  intros Hin Hf. pose proof (fixed_parent_known clk Hin Hf) as Hk.
  split; [exact Hk | ]. split; [now apply clk_request_ok | ].
  now apply get_fin_fixed.
Qed.

(** X7.  A mux row takes its input frequency from the clock that the
    selector map of its mask gives for the encoding found in its CLKSEL
    field: with the encoding of an entry in the field, the input
    frequency is the rate of that entry's clock, a PLL output. *)
Theorem mux_source_input cb clk e s :
  has_flag clk.(flags) FIXED_SRC = false ->
  In e (selector_map clk.(sel_mask)) ->
  u8 (field_get clk.(sel_mask) (reg s CLKSEL)) = e.(clksel) ->
  In e.(clkid) pll_ids /\
  npcm_clk_get_fin cb clk s = cb e.(clkid) s.
Proof.
  intros Hf He Hsel. split.
  - now apply (selector_map_clock (sel_mask clk)).
  - now apply get_fin_mux.
Qed.

(** *** Rates in closed form *)

(** The rate of each PLL identifier as a function of its control word. *)
Lemma get_rate_pll_regs s :
  get_rate CLK_PLL0 s = lift_opt (pll_rate (reg s PLLCON0) false) s /\
  get_rate CLK_PLL1 s = lift_opt (pll_rate (reg s PLLCON1) false) s /\
  get_rate CLK_PLL2 s = lift_opt (pll_rate (reg s PLLCON2) false) s /\
  get_rate CLK_PLL2DIV2 s = lift_opt (pll_rate (reg s PLLCON2) true) s.
Proof.
  assert (forall c, In c npcm8xx_clks -> In c.(id) pll_ids ->
            get_rate c.(id) s
            = lift_opt (pll_rate (reg s c.(reg_clkdiv))
                                 (has_flag c.(flags) POST_DIV2)) s) as H.
  { intros c Hin Hp. exact (clk_get_rate_pll c 2 s Hin Hp). }
  repeat split.
  - apply (H (mk_clk CLK_PLL0 CLK_REFCLK 0x0C 0xFFFFFFFF 0xFFFFFFFF 0xFFFFFFFF 1));
      [rewrite npcm8xx_clks_eq | unfold pll_ids]; cbn [In id]; tauto.
  - apply (H (mk_clk CLK_PLL1 CLK_REFCLK 0x10 0xFFFFFFFF 0xFFFFFFFF 0xFFFFFFFF 1));
      [rewrite npcm8xx_clks_eq | unfold pll_ids]; cbn [In id]; tauto.
  - apply (H (mk_clk CLK_PLL2 CLK_REFCLK 0x54 0xFFFFFFFF 0xFFFFFFFF 0xFFFFFFFF 1));
      [rewrite npcm8xx_clks_eq | unfold pll_ids]; cbn [In id]; tauto.
  - apply (H (mk_clk CLK_PLL2DIV2 CLK_REFCLK 0x54 0xFFFFFFFF 0xFFFFFFFF 0xFFFFFFFF 17));
      [rewrite npcm8xx_clks_eq | unfold pll_ids]; cbn [In id]; tauto.
Qed.

(** X8.  PLL2DIV2 is PLL2 halved: both identifiers read PLLCON2, and
    the rate of [CLK_PLL2DIV2] is the rate of [CLK_PLL2] divided by two,
    with truncation.  Where the divider product of PLLCON2 (input
    divider x output divider 1 x output divider 2) is zero neither has a
    rate: both run into the division by zero; where it is not zero both
    have one. *)
Theorem pll2div2_is_half_pll2 s :
  let val := reg s PLLCON2 in
  let prod := pll_indv val * pll_otdv1 val * pll_otdv2 val in
  get_rate CLK_PLL2DIV2 s = (r <- get_rate CLK_PLL2 ;; ret (r / 2)) s /\
  (prod = 0 -> get_rate CLK_PLL2 s = Undef /\ get_rate CLK_PLL2DIV2 s = Undef) /\
  (prod <> 0 ->
   get_rate CLK_PLL2 s = Ret (25000000 * pll_fbdv val / prod) s /\
   get_rate CLK_PLL2DIV2 s = Ret (25000000 * pll_fbdv val / prod / 2) s).
Proof.
  intros val prod.
  destruct (get_rate_pll_regs s) as (_ & _ & H2 & Hd).
  unfold bind. rewrite H2, Hd. unfold pll_rate, spec_pll_output, REFCLK_25M.
  fold val. fold prod.
  destruct (Z.eqb_spec prod 0) as [E | E]; cbn [lift_opt].
  - split; [reflexivity | ]. split; [intros _; split; reflexivity | ].
    intros H. contradiction.
  - split; [reflexivity | ]. split; [intros H; contradiction | ].
    intros _. split; reflexivity.
Qed.

Lemma ahb_row :
  In (mk_clk CLK_AHB (-1) 0x08 0x0C000000 0x00000007 0xFFFFFFFF 10) npcm8xx_clks.
Proof. rewrite npcm8xx_clks_eq. cbn [In]. tauto. Qed.

(** The rate of AHB with any budget, from the input frequency. *)
Lemma ahb_eval n s :
  clk_get_rate (S n) CLK_AHB s
  = (fin <- npcm_clk_get_fin (clk_get_rate n)
              (mk_clk CLK_AHB (-1) 0x08 0x0C000000 0x00000007 0xFFFFFFFF 10) ;;
     ret (fin / (2 * (field_get CLK4DIV (reg s CLKDIV1) + 1)))) s.
Proof.
  cbn [clk_get_rate]. rewrite get_rate_generic by (cbn [In]; auto).
  pose proof (get_fout_eval _ n s ahb_row ltac:(discriminate)) as H.
  cbn [id div_mask reg_clkdiv flags] in H. exact H.
Qed.

(** X9.  The rate of AHB: with the encoding of an entry of the CPU
    selector map in the CPU mux field, [get_rate] on AHB returns the
    rate of that entry's PLL divided by twice the AHB divider field
    plus one (the pre-divider by 2 and the linear divider). *)
Theorem ahb_rate_formula e s :
  In e (selector_map CPUCKSEL) ->
  u8 (field_get CPUCKSEL (reg s CLKSEL)) = e.(clksel) ->
  get_rate CLK_AHB s
  = (r <- get_rate e.(clkid) ;;
     ret (r / (2 * (field_get CLK4DIV (reg s CLKDIV1) + 1)))) s.
Proof.
  intros He Hsel. change (get_rate CLK_AHB s) with (clk_get_rate 4 CLK_AHB s).
  rewrite ahb_eval. unfold bind.
  rewrite (get_fin_mux _ (mk_clk CLK_AHB (-1) 0x08 0x0C000000 0x00000007 0xFFFFFFFF 10)
             e s eq_refl He Hsel).
  now rewrite clk_get_rate_pll_3 by (apply (selector_map_clock CPUCKSEL), He).
Qed.

Lemma apb_eval clk s :
  In clk npcm8xx_clks -> In clk.(id) [CLK_APB2; CLK_APB5] ->
  get_rate clk.(id) s
  = (ahb <- get_rate CLK_AHB ;;
     ret (ahb / 2 ^ field_get clk.(div_mask) (reg s CLKDIV2))) s.
Proof.
  intros Hin Hid.
  assert (clk.(div_mask) <> u32 NONE /\ clk.(reg_clkdiv) = CLKDIV2 /\
          clk.(parent_id) = CLK_AHB /\ has_flag clk.(flags) FIXED_SRC = true /\
          forall f, spec_div clk.(flags) f = 2 ^ f) as (Hm & Hr & Hp & Hf & Hd).
  { table_cases Hin; cbn [id] in Hid; id_cases Hid;
      repeat split; discriminate. }
  unfold get_rate. rewrite get_rate_generic by (cbn [In] in *; tauto).
  rewrite get_fout_eval by assumption.
  rewrite Hr, Hd. unfold bind.
  rewrite get_fin_fixed by (rewrite ?Hp; first [exact Hf | in_ids]).
  rewrite Hp. now rewrite clk_get_rate_ahb_3.
Qed.

Lemma apb_field_bound clk w :
  In clk npcm8xx_clks -> In clk.(id) [CLK_APB2; CLK_APB5] ->
  0 <= field_get clk.(div_mask) w <= 3.
Proof.
  intros Hin Hid.
  pose proof (field_get_bound (div_mask clk) w) as Hb.
  table_cases Hin; cbn [id] in Hid; id_cases Hid; cbn [div_mask] in *;
    specialize (Hb ltac:(discriminate)); exact Hb.
Qed.

(** X10.  The rate of APB2 and of APB5 is the rate of AHB divided by
    two to the power of the node's divider field in CLKDIV2, a field of
    two bits: a division by 1, 2, 4 or 8.  It never exceeds the rate of
    AHB and it has no value where AHB has none. *)
Theorem apb_rate_formula clk s :
  In clk npcm8xx_clks -> In clk.(id) [CLK_APB2; CLK_APB5] ->
  let field := field_get clk.(div_mask) (reg s CLKDIV2) in
  0 <= field <= 3 /\
  get_rate clk.(id) s = (ahb <- get_rate CLK_AHB ;; ret (ahb / 2 ^ field)) s /\
  (forall ahb, get_rate CLK_AHB s = Ret ahb s -> 0 <= ahb ->
               exists v, get_rate clk.(id) s = Ret v s /\ 0 <= v <= ahb).
Proof.
  intros Hin Hid field.
  pose proof (apb_field_bound clk (reg s CLKDIV2) Hin Hid) as Hb. fold field in Hb.
  pose proof (apb_eval clk s Hin Hid) as He. fold field in He.
  split; [exact Hb | ]. split; [exact He | ].
  intros ahb Ha Hpos. exists (ahb / 2 ^ field). rewrite He. unfold bind.
  rewrite Ha. split; [reflexivity | ].
  assert (1 <= 2 ^ field) by (pose proof (Z.pow_pos_nonneg 2 field); lia).
  split; [apply Z.div_pos; lia | ].
  apply Z.div_le_upper_bound; nia.
Qed.

(** *** The range of the rates *)

Lemma pll_rate_le val post fin :
  pll_rate val post = Some fin -> 0 <= fin <= PLL_RATE_MAX.
Proof. intros H. apply pll_rate_bound in H. exact H. Qed.

Lemma lift_opt_ret {A} (o : option A) s v s' :
  lift_opt o s = Ret v s' -> o = Some v /\ s' = s.
Proof.
  destruct o as [a|]; cbn [lift_opt]; unfold ret, undef; [ | discriminate].
  intros [= -> ->]. now split.
Qed.

Lemma pll_get_rate_bound i s v s' :
  In i pll_ids -> get_rate i s = Ret v s' -> 0 <= v <= PLL_RATE_MAX.
Proof.
  intros Hi H. destruct (get_rate_pll_regs s) as (H0 & H1 & H2 & H3).
  id_cases Hi;
    [rewrite H0 in H | rewrite H1 in H | rewrite H2 in H | rewrite H3 in H];
    apply lift_opt_ret in H; destruct H as [H _];
    now apply pll_rate_le in H.
Qed.

(** The input frequency of AHB is 0 or the rate of a PLL. *)
Lemma ahb_fin_cases s :
  let ahb := mk_clk CLK_AHB (-1) 0x08 0x0C000000 0x00000007 0xFFFFFFFF 10 in
  npcm_clk_get_fin (clk_get_rate 3) ahb s = Ret 0 s \/
  exists e, In e (selector_map CPUCKSEL) /\
            u8 (field_get CPUCKSEL (reg s CLKSEL)) = e.(clksel) /\
            npcm_clk_get_fin (clk_get_rate 3) ahb s = get_rate e.(clkid) s.
Proof.
  intros ahb.
  destruct (clksel_to_clkid_cases (u8 (field_get CPUCKSEL (reg s CLKSEL))) CPUCKSEL)
    as [H | (e & He & Hsel & _)].
  - left. apply get_fin_unknown; [reflexivity | exact H].
  - right. exists e. split; [exact He | ]. split; [now symmetry | ].
    rewrite (get_fin_mux _ ahb e s eq_refl He (eq_sym Hsel)).
    apply clk_get_rate_pll_3. now apply (selector_map_clock CPUCKSEL).
Qed.

Lemma ahb_field_bound w : 0 <= field_get CLK4DIV w <= 3.
Proof. apply (field_get_bound CLK4DIV w). discriminate. Qed.

Lemma ahb_get_rate_bound s v s' :
  get_rate CLK_AHB s = Ret v s' -> 0 <= v <= PLL_RATE_MAX.
Proof.
  change (get_rate CLK_AHB s) with (clk_get_rate 4 CLK_AHB s).
  rewrite ahb_eval. unfold bind.
  pose proof (ahb_field_bound (reg s CLKDIV1)) as Hf.
  set (d := 2 * (field_get CLK4DIV (reg s CLKDIV1) + 1)).
  assert (2 <= d) as Hd by (unfold d; lia).
  assert (forall fin, 0 <= fin <= PLL_RATE_MAX -> 0 <= fin / d <= PLL_RATE_MAX) as Hq.
  { intros fin Hfin. split; [apply Z.div_pos; lia | ].
    apply Z.div_le_upper_bound; nia. }
  destruct (ahb_fin_cases s) as [H | (e & He & _ & H)]; rewrite H.
  - unfold ret. intros [= <- _]. apply Hq. unfold PLL_RATE_MAX. lia.
  - destruct (get_rate (clkid e) s) as [fin s1| |] eqn:E; try discriminate.
    unfold ret. intros [= <- _]. apply Hq.
    apply (pll_get_rate_bound (clkid e) s fin s1);
      [now apply (selector_map_clock CPUCKSEL) | exact E].
Qed.

(** X11.  Every rate [get_rate] resolves for the reference, a PLL, AHB
    or an APB bus lies between 0 and 25 MHz x 4095 (102,375,000,000 Hz):
    a resolved rate is never in the range of the error codes, so it
    cannot be taken for [-ENOSYS]. *)
Theorem resolved_rate_range i s v s' :
  In i readable_ids -> get_rate i s = Ret v s' ->
  0 <= v <= PLL_RATE_MAX /\ v < u64 (- 4095) /\ v <> u64 (- ENOSYS).
Proof.
  intros Hi H.
  assert (0 <= v <= PLL_RATE_MAX) as Hb.
  { destruct (in_dec Z.eq_dec i pll_ids) as [Hp | Hnp];
      [now apply (pll_get_rate_bound i s v s') | ].
    id_cases Hi; try (exfalso; apply Hnp; unfold pll_ids; cbn [In]; tauto).
    - change (get_rate CLK_REFCLK s) with (clk_get_rate 4 CLK_REFCLK s) in H.
      rewrite clk_get_rate_refclk in H. unfold ret in H.
      assert (v = REFCLK_25M) as -> by congruence.
      unfold REFCLK_25M, PLL_RATE_MAX. lia.
    - now apply (ahb_get_rate_bound s v s').
    - set (apb2 := mk_clk CLK_APB2 CLK_AHB 0x2C 0x0C000000 0xFFFFFFFF 0xFFFFFFFF 5).
      assert (In apb2 npcm8xx_clks) as Hin
          by (rewrite npcm8xx_clks_eq; cbn [In]; tauto).
      pose proof (apb_eval apb2 s Hin ltac:(cbn [In id]; tauto)) as He.
      pose proof (apb_field_bound apb2 (reg s CLKDIV2) Hin ltac:(cbn [In id]; tauto)) as Hf.
      cbn [id apb2] in He. rewrite He in H. unfold bind in H.
      destruct (get_rate CLK_AHB s) as [a s1| |] eqn:E; try discriminate.
      apply ahb_get_rate_bound in E. unfold ret in H.
      assert (v = a / 2 ^ field_get (div_mask apb2) (reg s CLKDIV2)) as -> by congruence.
      assert (1 <= 2 ^ field_get (div_mask apb2) (reg s CLKDIV2))
        by (pose proof (Z.pow_pos_nonneg 2 (field_get (div_mask apb2) (reg s CLKDIV2))); lia).
      split; [apply Z.div_pos; lia | apply Z.div_le_upper_bound; nia].
    - set (apb5 := mk_clk CLK_APB5 CLK_AHB 0x2C 0x00C00000 0xFFFFFFFF 0xFFFFFFFF 5).
      assert (In apb5 npcm8xx_clks) as Hin
          by (rewrite npcm8xx_clks_eq; cbn [In]; tauto).
      pose proof (apb_eval apb5 s Hin ltac:(cbn [In id]; tauto)) as He.
      pose proof (apb_field_bound apb5 (reg s CLKDIV2) Hin ltac:(cbn [In id]; tauto)) as Hf.
      cbn [id apb5] in He. rewrite He in H. unfold bind in H.
      destruct (get_rate CLK_AHB s) as [a s1| |] eqn:E; try discriminate.
      apply ahb_get_rate_bound in E. unfold ret in H.
      assert (v = a / 2 ^ field_get (div_mask apb5) (reg s CLKDIV2)) as -> by congruence.
      assert (1 <= 2 ^ field_get (div_mask apb5) (reg s CLKDIV2))
        by (pose proof (Z.pow_pos_nonneg 2 (field_get (div_mask apb5) (reg s CLKDIV2))); lia).
      split; [apply Z.div_pos; lia | apply Z.div_le_upper_bound; nia]. }
  split; [exact Hb | ].
  change (u64 (- 4095)) with 18446744073709547521.
  change (u64 (- ENOSYS)) with 18446744073709551578.
  unfold PLL_RATE_MAX in Hb. lia.
Qed.

(** *** What the resolver looks at *)

Lemma same_result_lift {A} (o : option A) s s' :
  same_result (lift_opt o s) (lift_opt o s').
Proof. destruct o; cbn; auto. Qed.

(** Dividing two results that agree gives results that agree. *)
Lemma same_result_div (o o' : outcome Z) d :
  same_result o o' ->
  same_result
    (match o with Ret a s1 => ret (a / d) s1 | Undef => Undef | Diverge => Diverge end)
    (match o' with Ret a s1 => ret (a / d) s1 | Undef => Undef | Diverge => Diverge end).
Proof.
  destruct o, o'; cbn; try tauto. intros ->. reflexivity.
Qed.

Lemma pll_same s s' i :
  same_inputs s s' -> In i pll_ids ->
  same_result (get_rate i s) (get_rate i s').
Proof.
  intros (H0 & H1 & H2 & _) Hi.
  destruct (get_rate_pll_regs s) as (A0 & A1 & A2 & A3).
  destruct (get_rate_pll_regs s') as (B0 & B1 & B2 & B3).
  id_cases Hi;
    [rewrite A0, B0, H0 | rewrite A1, B1, H1 | rewrite A2, B2, H2
     | rewrite A3, B3, H2]; apply same_result_lift.
Qed.

(** The input frequency of AHB, by the clock its mux field decodes to. *)
Lemma ahb_fin_eval s :
  let p := clksel_to_clkid (u8 (field_get CPUCKSEL (reg s CLKSEL))) CPUCKSEL in
  (p = - EINVAL \/ In p pll_ids) /\
  npcm_clk_get_fin (clk_get_rate 3)
    (mk_clk CLK_AHB (-1) 0x08 0x0C000000 0x00000007 0xFFFFFFFF 10) s
  = if p =? - EINVAL then Ret 0 s else get_rate p s.
Proof.
  intros p.
  destruct (clksel_to_clkid_cases (u8 (field_get CPUCKSEL (reg s CLKSEL))) CPUCKSEL)
    as [Hp | (e & He & Hsel & Hp)]; fold p in Hp.
  - split; [now left | ]. rewrite Hp, Z.eqb_refl.
    apply get_fin_unknown; [reflexivity | exact Hp].
  - pose proof (selector_map_clock CPUCKSEL e He) as Hk.
    split; [right; now rewrite Hp | ]. rewrite Hp.
    destruct (Z.eqb_spec (clkid e) (- EINVAL)) as [E | _].
    + exfalso. apply einval_no_clock. rewrite <- E. now apply pll_ids_known.
    + rewrite (get_fin_mux _ (mk_clk CLK_AHB (-1) 0x08 0x0C000000 0x00000007
                                      0xFFFFFFFF 10) e s eq_refl He (eq_sym Hsel)).
      now apply clk_get_rate_pll_3.
Qed.

Lemma ahb_same s s' :
  same_inputs s s' -> same_result (get_rate CLK_AHB s) (get_rate CLK_AHB s').
Proof.
  intros Hs. pose proof Hs as (_ & _ & _ & Hsel & Hdiv & _).
  change (get_rate CLK_AHB) with (clk_get_rate 4 CLK_AHB).
  rewrite !ahb_eval. unfold bind. rewrite <- Hdiv.
  destruct (ahb_fin_eval s) as [Hp E]. destruct (ahb_fin_eval s') as [_ E'].
  cbv zeta in *. rewrite E, E'. rewrite <- Hsel.
  set (p := clksel_to_clkid _ _) in *.
  destruct (Z.eqb_spec p (- EINVAL)) as [Hq | Hq]; [reflexivity | ].
  apply same_result_div. apply pll_same; [exact Hs | ].
  destruct Hp; [contradiction | assumption].
Qed.

Lemma apb_same clk s s' :
  In clk npcm8xx_clks -> In clk.(id) [CLK_APB2; CLK_APB5] ->
  same_inputs s s' -> same_result (get_rate clk.(id) s) (get_rate clk.(id) s').
Proof.
  intros Hin Hid Hs.
  rewrite !apb_eval by assumption. unfold bind.
  assert (field_get (div_mask clk) (reg s CLKDIV2)
          = field_get (div_mask clk) (reg s' CLKDIV2)) as <-.
  { destruct Hs as (_ & _ & _ & _ & _ & H2 & H5).
    table_cases Hin; cbn [id] in Hid; id_cases Hid; assumption. }
  apply same_result_div. now apply ahb_same.
Qed.

Lemma rates_same s s' i :
  same_inputs s s' -> same_result (get_rate i s) (get_rate i s').
Proof.
  intros Hs.
  destruct (in_dec Z.eq_dec i readable_ids) as [Hi | Hi].
  - destruct (in_dec Z.eq_dec i pll_ids) as [Hp | Hnp]; [now apply pll_same | ].
    id_cases Hi; try (exfalso; apply Hnp; unfold pll_ids; cbn [In]; tauto).
    + change (get_rate CLK_REFCLK) with (clk_get_rate 4 CLK_REFCLK).
      rewrite clk_get_rate_refclk. reflexivity.
    + now apply ahb_same.
    + apply (apb_same (mk_clk CLK_APB2 CLK_AHB 0x2C 0x0C000000 0xFFFFFFFF 0xFFFFFFFF 5));
        [rewrite npcm8xx_clks_eq | | exact Hs]; cbn [In id]; tauto.
    + apply (apb_same (mk_clk CLK_APB5 CLK_AHB 0x2C 0x00C00000 0xFFFFFFFF 0xFFFFFFFF 5));
        [rewrite npcm8xx_clks_eq | | exact Hs]; cbn [In id]; tauto.
  - unfold get_rate. rewrite get_rate_default by exact Hi. reflexivity.
Qed.

(** Results that agree, for a resolver that returns in the state it
    was started in. *)
Lemma same_result_ret i s s' v :
  same_result (get_rate i s) (get_rate i s') ->
  get_rate i s = Ret v s -> get_rate i s' = Ret v s'.
Proof.
  intros H E. rewrite E in H.
  pose proof (read_only_clk_get_rate 4 i s') as Hro.
  change (clk_get_rate 4 i s') with (get_rate i s') in Hro.
  destruct (get_rate i s') as [v' s1| |]; cbn in H; try contradiction.
  now subst.
Qed.

(** X12.  [get_rate] looks at nothing but the three PLL control words,
    the CPU mux field of CLKSEL, the AHB divider field of CLKDIV1 and
    the two APB divider fields of CLKDIV2: on two register blocks that
    agree there it gives the same answer for every identifier, whatever
    the other registers and the other bits of these registers hold.  A
    rate returned on the one block is returned on the other, and a
    division by zero on the one is a division by zero on the other. *)
Theorem get_rate_inputs s s' :
  same_inputs s s' ->
  forall i,
    same_result (get_rate i s) (get_rate i s') /\
    (forall v, get_rate i s = Ret v s -> get_rate i s' = Ret v s') /\
    (get_rate i s = Undef -> get_rate i s' = Undef).
Proof.
  intros Hs i. pose proof (rates_same s s' i Hs) as H.
  split; [exact H | ]. split.
  - intros v E. now apply (same_result_ret i s s' v).
  - intros E. rewrite E in H.
    destruct (get_rate i s') as [v' s1| |]; cbn in H; try contradiction.
    reflexivity.
Qed.

(** *** What the rate programmer touches *)

Lemma select_source_other_field clk s m' :
  0 <= clk.(sel_mask) < 2 ^ 32 -> 0 <= m' < 2 ^ 32 ->
  Z.land clk.(sel_mask) m' = 0 ->
  field_get m' (reg (select_source clk s) CLKSEL) = field_get m' (reg s CLKSEL).
Proof.
  intros Hm Hm' Hd. rewrite reg_select_source by exact Hm.
  now apply field_get_other.
Qed.

Lemma program_div_other_field clk c s m' off :
  0 <= clk.(div_mask) < 2 ^ 32 -> 0 <= m' < 2 ^ 32 ->
  off <> clk.(reg_clkdiv) \/ Z.land clk.(div_mask) m' = 0 ->
  field_get m' (reg (program_div clk c s) off) = field_get m' (reg s off).
Proof.
  intros Hm Hm' H. destruct (Z.eq_dec off (reg_clkdiv clk)) as [-> | Hne].
  - destruct H as [H | H]; [contradiction | ].
    rewrite reg_program_div by exact Hm. now apply field_get_other.
  - now rewrite reg_program_div_other.
Qed.

(** Side conditions on the literal offsets and masks of a row. *)
Ltac row_side :=
  cbn [sel_mask div_mask reg_clkdiv];
  first [ lia
        | reflexivity
        | split; [intros E; vm_compute in E; discriminate | reflexivity]
        | intros E; vm_compute in E; discriminate
        | left; intros E; vm_compute in E; discriminate
        | right; reflexivity ].

(** The registers and fields of [same_inputs] are none of those a
    settable row has its mux and divider in. *)
Lemma set_rate_same_inputs clk c s :
  In clk npcm8xx_clks -> In clk.(id) settable_ids ->
  same_inputs s (program_div clk c (select_source clk s)).
Proof.
  intros Hin Hset. unfold same_inputs.
  table_cases Hin; cbn [id] in Hset; id_cases Hset;
    repeat split; symmetry;
    first
      [ rewrite reg_program_div_other by row_side;
        rewrite reg_select_source_other by row_side; reflexivity
      | rewrite program_div_other_field by row_side;
        first [ rewrite select_source_other_field by row_side
              | rewrite reg_select_source_other by row_side ];
        reflexivity ].
Qed.

(** X13.  Programming a settable clock changes no rate that [get_rate]
    resolves: after [set_rate] has returned on SDHC, UART1 or UART2, the
    registers and fields the resolver looks at are as before, and
    [get_rate] gives for every identifier the answer it gave before the
    call. *)
Theorem set_rate_keeps_rates clk rate s r s1 :
  In clk npcm8xx_clks -> In clk.(id) settable_ids ->
  set_rate clk.(id) rate s = Ret r s1 ->
  same_inputs s s1 /\
  forall i,
    same_result (get_rate i s) (get_rate i s1) /\
    (forall v, get_rate i s = Ret v s -> get_rate i s1 = Ret v s1).
Proof.
  intros Hin Hset Hret.
  destruct (settable_facts clk Hin Hset) as [p Hrow].
  destruct (set_rate_ret clk p rate s r s1 Hin Hset Hrow Hret)
    as (fin & _ & _ & _ & _ & ->).
  pose proof (set_rate_same_inputs clk
                (u32 (u32 (u64 (fin + rate - 1) / rate) - 1)) s Hin Hset) as Hs.
  split; [exact Hs | ]. intros i.
  pose proof (rates_same _ _ i Hs) as H.
  split; [exact H | ]. intros v E. now apply (same_result_ret i s _ v).
Qed.

(** X14.  What [set_rate] writes on a settable row: two [writel]
    accesses, CLKSEL first and the row's divider register second; every
    other register cell is left alone, and in the two registers written
    the bits outside the row's mux mask and divider mask keep their
    value. *)
Theorem set_rate_frame clk rate s r s1 :
  In clk npcm8xx_clks -> In clk.(id) settable_ids ->
  set_rate clk.(id) rate s = Ret r s1 ->
  (forall off, off <> CLKSEL -> off <> clk.(reg_clkdiv) ->
               cells s1 off = cells s off) /\
  Z.land (reg s1 CLKSEL) (not32 clk.(sel_mask))
  = Z.land (reg s CLKSEL) (not32 clk.(sel_mask)) /\
  Z.land (reg s1 clk.(reg_clkdiv)) (not32 clk.(div_mask))
  = Z.land (reg s clk.(reg_clkdiv)) (not32 clk.(div_mask)) /\
  written s1 = (clk.(reg_clkdiv), cells s1 clk.(reg_clkdiv))
               :: (CLKSEL, cells s1 CLKSEL) :: written s.
Proof.
  intros Hin Hset Hret.
  destruct (settable_facts clk Hin Hset) as [p Hrow].
  destruct (set_rate_ret clk p rate s r s1 Hin Hset Hrow Hret)
    as (fin & _ & _ & _ & _ & ->).
  set (c := u32 (u32 (u64 (fin + rate - 1) / rate) - 1)).
  destruct (after_set_rate clk p c s Hrow) as (_ & Hsel & _ & Hdiv).
  destruct Hrow as (_ & _ & _ & _ & _ & Hrc & _ & _ & _ & Hsm & Hdm & _).
  repeat split.
  - intros off H1 H2. unfold program_div, select_source. cbn [cells].
    rewrite (proj2 (Z.eqb_neq off _) H2). now rewrite (proj2 (Z.eqb_neq off _) H1).
  - rewrite Hsel. apply field_set_outside. lia.
  - rewrite Hdiv, field_set_outside by lia.
    now rewrite reg_select_source_other.
  - unfold program_div, select_source. cbn [written cells].
    rewrite Z.eqb_refl.
    rewrite (proj2 (Z.eqb_neq CLKSEL (reg_clkdiv clk))) by congruence.
    now rewrite Z.eqb_refl.
Qed.

(** X15.  Programming one settable clock does not reprogram another
    node: after [set_rate] on a settable row, the divider field of every
    other row of the table reads as before, also where it shares the
    register (UART1, SDHC and AHB in CLKDIV1), and so does the mux field
    of every row with another mux mask. *)
Theorem set_rate_other_nodes clk rate s r s1 other :
  In clk npcm8xx_clks -> In clk.(id) settable_ids ->
  set_rate clk.(id) rate s = Ret r s1 ->
  In other npcm8xx_clks ->
  (other.(div_mask) <> u32 NONE -> other.(id) <> clk.(id) ->
   field_get other.(div_mask) (reg s1 other.(reg_clkdiv))
   = field_get other.(div_mask) (reg s other.(reg_clkdiv))) /\
  (other.(sel_mask) <> u32 NONE -> other.(sel_mask) <> clk.(sel_mask) ->
   field_get other.(sel_mask) (reg s1 CLKSEL)
   = field_get other.(sel_mask) (reg s CLKSEL)).
Proof.
  intros Hin Hset Hret Hother.
  destruct (settable_facts clk Hin Hset) as [p Hrow].
  destruct (set_rate_ret clk p rate s r s1 Hin Hset Hrow Hret)
    as (fin & _ & _ & _ & _ & ->).
  clear Hrow Hret p.
  set (c := u32 (u32 (u64 (fin + rate - 1) / rate) - 1)). clearbody c.
  split.
  - intros Hmask Hne.
    table_cases Hin; cbn [id] in Hset; id_cases Hset;
      table_cases Hother; cbn [id div_mask reg_clkdiv] in *;
      try (exfalso; apply Hmask; reflexivity);
      try (exfalso; apply Hne; reflexivity);
      rewrite program_div_other_field by row_side;
      rewrite reg_select_source_other by row_side; reflexivity.
  - intros Hmask Hne.
    table_cases Hin; cbn [id] in Hset; id_cases Hset;
      table_cases Hother; cbn [id sel_mask] in *;
      try (exfalso; apply Hmask; reflexivity);
      try (exfalso; apply Hne; reflexivity);
      rewrite program_div_other_field by row_side;
      rewrite select_source_other_field by row_side; reflexivity.
Qed.

(** X16.  A target of 0 is not caught: [set_rate] on a settable clock
    with a rate of 0 runs into a division by zero, in [DIV_ROUND_UP] or
    before it in the PLL formula, whatever the registers hold. *)
Theorem set_rate_zero_target clk s :
  In clk npcm8xx_clks -> In clk.(id) settable_ids ->
  set_rate clk.(id) 0 s = Undef /\
  npcm_clk_set_fout (clk_get_rate tree_depth) (u32 clk.(id)) 0 s = Undef.
Proof.
  intros Hin Hset. destruct (settable_facts clk Hin Hset) as [p Hrow].
  pose proof (set_rate_eval clk p 0 s Hin Hset Hrow) as H.
  assert (set_rate (id clk) 0 s = Undef) as Hu.
  { rewrite H. destruct (pll_rate _ _); reflexivity. }
  split; [exact Hu | ].
  unfold set_rate in Hu. rewrite set_rate_settable in Hu by exact Hset.
  unfold bind in Hu.
  destruct (npcm_clk_set_fout _ _ _ _); [discriminate | reflexivity | discriminate].
Qed.

Lemma ceil_div_fits fin rate :
  0 <= fin <= PLL_RATE_MAX -> 24 <= rate -> ceil_div fin rate < 2 ^ 32.
Proof.
  intros Hf Hr. unfold ceil_div, PLL_RATE_MAX in *.
  apply Z.div_lt_upper_bound; lia.
Qed.

Lemma ceil_div_covers fin rate :
  0 < rate -> fin <= rate * ceil_div fin rate.
Proof.
  intros Hr. unfold ceil_div.
  pose proof (Z.div_mod (fin + rate - 1) rate ltac:(lia)).
  pose proof (Z.mod_pos_bound (fin + rate - 1) rate Hr). lia.
Qed.

(** What a returning [set_rate] has computed, for a target of 24 Hz or
    more: the ceiling fits 32 bits and is the divisor used. *)
Lemma set_rate_ret_exact clk p rate s r s1 :
  In clk npcm8xx_clks -> In clk.(id) settable_ids -> settable_row clk p ->
  24 <= rate < 2 ^ 64 ->
  set_rate clk.(id) rate s = Ret r s1 ->
  exists fin,
    pll_rate (reg s p.(reg_clkdiv)) (has_flag p.(flags) POST_DIV2) = Some fin /\
    0 < fin <= PLL_RATE_MAX /\
    1 <= ceil_div fin rate < 2 ^ 32 /\
    r = fin / ceil_div fin rate /\
    s1 = program_div clk (ceil_div fin rate - 1) (select_source clk s).
Proof.
  intros Hin Hset Hrow Hrate Hret.
  destruct (set_rate_ret clk p rate s r s1 Hin Hset Hrow Hret)
    as (fin & Hpll & Hr0 & Hd0 & -> & ->).
  pose proof (pll_rate_le _ _ _ Hpll) as Hfb.
  assert (u64 (fin + rate - 1) / rate <> 0) as Hq.
  { intros E. apply Hd0. now rewrite E. }
  assert (PLL_RATE_MAX < 2 ^ 64) as HB by reflexivity.
  destruct (round_up_nonzero fin rate ltac:(lia) ltac:(lia) Hq) as (Hf & Hsum & Hceil).
  pose proof (ceil_div_fits fin rate Hfb ltac:(lia)) as Hfit.
  pose proof (ceil_div_pos fin rate Hf ltac:(lia)) as Hpos.
  exists fin. rewrite Hceil. rewrite (u32_small (ceil_div fin rate)) by lia.
  rewrite (u32_small (ceil_div fin rate - 1)) by lia.
  repeat split; try assumption; lia.
Qed.

(** X17.  The rate [set_rate] reports never exceeds the request: for a
    target of at least 24 Hz (so that the divisor fits 32 bits) the
    value returned on a settable clock lies between 0 and the target. *)
Theorem set_rate_not_above_target clk rate s r s1 :
  In clk npcm8xx_clks -> In clk.(id) settable_ids ->
  24 <= rate < 2 ^ 64 ->
  set_rate clk.(id) rate s = Ret r s1 ->
  0 <= r <= rate.
Proof.
  intros Hin Hset Hrate Hret.
  destruct (settable_facts clk Hin Hset) as [p Hrow].
  destruct (set_rate_ret_exact clk p rate s r s1 Hin Hset Hrow Hrate Hret)
    as (fin & _ & Hf & Hd & -> & _).
  pose proof (ceil_div_covers fin rate ltac:(lia)).
  split; [apply Z.div_pos; lia | ].
  apply Z.div_le_upper_bound; lia.
Qed.

(** X18.  The rate the divider is left programmed for is never below
    the rate [set_rate] reported: for a target of at least 24 Hz the
    generic divider resolver, asked for the settable clock right after
    [set_rate], returns the reported rate or more (more only when the
    divisor did not fit the five-bit field). *)
Theorem programmed_rate_not_below_reported clk rate s r s1 :
  In clk npcm8xx_clks -> In clk.(id) settable_ids ->
  24 <= rate < 2 ^ 64 ->
  set_rate clk.(id) rate s = Ret r s1 ->
  exists r',
    npcm_clk_get_fout (clk_get_rate tree_depth) (u32 clk.(id)) s1 = Ret r' s1 /\
    r <= r'.
Proof.
  intros Hin Hset Hrate Hret.
  destruct (settable_facts clk Hin Hset) as [p Hrow].
  destruct (set_rate_ret_exact clk p rate s r s1 Hin Hset Hrow Hrate Hret)
    as (fin & Hpll & Hf & Hd & -> & ->).
  set (d := ceil_div fin rate) in *.
  destruct (after_set_rate clk p (d - 1) s Hrow) as (Hsel & _ & Hp & _).
  set (s1 := program_div clk (d - 1) (select_source clk s)) in *.
  assert (npcm_clk_get_fin (clk_get_rate tree_depth) clk s1 = Ret fin s1) as Hfin.
  { unfold tree_depth. rewrite (settable_fin_pll clk p 1 s1 Hrow Hsel).
    now rewrite Hp, Hpll. }
  pose proof (program_div_field clk p (d - 1) (select_source clk s) Hrow) as Hfield.
  fold s1 in Hfield.
  rewrite get_fout_eval by (exact Hin || apply Hrow).
  unfold bind. rewrite Hfin, Hfield. unfold ret.
  destruct Hrow as (_ & _ & _ & _ & _ & _ & _ & Ht1 & Hpre & _).
  unfold spec_div. rewrite Ht1, Hpre.
  eexists. split; [reflexivity | ].
  pose proof (Z.mod_pos_bound (d - 1) 32 ltac:(lia)) as Hm.
  assert ((d - 1) mod 32 <= d - 1) by (apply Z.mod_le; lia).
  apply Z.div_le_compat_l; lia.
Qed.

(** X19.  When [set_rate] returns, and what: for a target of at least
    24 Hz and at most 2^63, [set_rate] on a settable clock returns a
    rate exactly when the declared parent has a rate and that rate is
    not zero, and the rate returned is then the parent's rate [fin]
    (read before the call) over [ceil (fin / rate)]; the previous
    contents of CLKSEL and of the divider register do not matter. *)
Theorem set_rate_returns_iff clk rate s r :
  In clk npcm8xx_clks -> In clk.(id) settable_ids ->
  24 <= rate <= 2 ^ 63 ->
  (exists s1, set_rate clk.(id) rate s = Ret r s1) <->
  (exists fin, get_rate clk.(parent_id) s = Ret fin s /\ 0 < fin /\
               r = fin / ceil_div fin rate).
Proof.
  intros Hin Hset Hrate.
  destruct (settable_facts clk Hin Hset) as [p Hrow].
  pose proof (settable_parent_rate clk p s Hrow) as Hparent.
  split.
  - intros [s1 Hret].
    destruct (set_rate_ret_exact clk p rate s r s1 Hin Hset Hrow ltac:(lia) Hret)
      as (fin & Hpll & Hf & _ & Hr & _).
    exists fin. rewrite Hparent, Hpll. repeat split; [lia | exact Hr].
  - intros (fin & Hget & Hf & ->).
    rewrite Hparent in Hget. apply lift_opt_ret in Hget. destruct Hget as [Hpll _].
    pose proof (pll_rate_le _ _ _ Hpll) as Hfb.
    pose proof (ceil_div_fits fin rate Hfb ltac:(lia)) as Hfit.
    pose proof (ceil_div_pos fin rate Hf ltac:(lia)) as Hpos.
    assert (PLL_RATE_MAX < 2 ^ 63) as HB by reflexivity.
    rewrite (set_rate_eval clk p) by assumption. rewrite Hpll.
    destruct (Z.eqb_spec rate 0); [lia | ]. cbv zeta.
    rewrite (u64_small (fin + rate - 1)) by lia.
    fold (ceil_div fin rate). rewrite (u32_small (ceil_div fin rate)) by lia.
    destruct (Z.eqb_spec (ceil_div fin rate) 0); [lia | ].
    eexists. reflexivity.
Qed.

End Driver.

(** ** Examples

    The theorems at the numbering [sample_ids], and the inputs at which
    the code departs from the specification. *)

#[local] Existing Instance sample_ids.

Ltac pick := (left; reflexivity) + (right; pick).

Lemma get_rate_writes_nothing_witness :
  ids_wf = true /\
  ((exists v, get_rate CLK_APB2 sample_regs = Ret v sample_regs)
   \/ get_rate CLK_APB2 sample_regs = Undef).
Proof.
  split; [reflexivity | ].
  apply (proj2 (get_rate_writes_nothing (ids := sample_ids) eq_refl)).
Defined.

Lemma unmodeled_id_not_implemented_witness :
  ~ In CLK_SDHC readable_ids /\ ~ In CLK_AHB settable_ids /\
  get_rate CLK_SDHC sample_regs = Ret (2 ^ 64 - 38) sample_regs /\
  set_rate CLK_AHB 1000000 sample_regs = Ret (2 ^ 64 - 38) sample_regs.
Proof.
  assert (~ In CLK_SDHC readable_ids) as H1 by (cbn; lia).
  assert (~ In CLK_AHB settable_ids) as H2 by (cbn; lia).
  split; [exact H1 | ]. split; [exact H2 | ].
  destruct (unmodeled_id_not_implemented CLK_SDHC CLK_AHB 1000000 sample_regs H1 H2)
    as (Hg & Hs & _).
  split; [exact Hg | exact Hs].
Defined.

Lemma pll_rate_formula_witness :
  let pll0 := clk_row CLK_PLL0 CLK_REFCLK PLLCON0 NONE NONE NONE FIXED_SRC in
  let pll2div2 := clk_row CLK_PLL2DIV2 CLK_REFCLK PLLCON2 NONE NONE NONE
                          (Z.lor FIXED_SRC POST_DIV2) in
  ids_wf = true /\
  In pll0 npcm8xx_clks /\ In pll0.(id) pll_ids /\
  In pll2div2 npcm8xx_clks /\ In pll2div2.(id) pll_ids /\
  1 * 2 * 1 <> 0 /\
  get_rate CLK_PLL0 sample_regs = Ret 800000000 sample_regs /\
  get_rate CLK_PLL2DIV2 sample_regs = Ret 400000000 sample_regs.
Proof.
  intros pll0 pll2div2.
  assert (In pll0 npcm8xx_clks) as H0 by (cbn; pick).
  assert (In pll0.(id) pll_ids) as H0' by (cbn; pick).
  assert (In pll2div2 npcm8xx_clks) as H2 by (cbn; pick).
  assert (In pll2div2.(id) pll_ids) as H2' by (cbn; pick).
  assert (1 * 2 * 1 <> 0) as Hp by discriminate.
  split; [reflexivity | ].
  do 5 (split; [assumption | ]).
  split.
  - exact (proj1 (proj2 (proj2
             (pll_rate_formula (ids := sample_ids) eq_refl pll0 sample_regs H0 H0' Hp)))).
  - exact (proj1 (proj2 (proj2
             (pll_rate_formula (ids := sample_ids) eq_refl pll2div2 sample_regs H2 H2' Hp)))).
Defined.

Lemma pll_zero_divisor_undefined_witness :
  let pll0 := clk_row CLK_PLL0 CLK_REFCLK PLLCON0 NONE NONE NONE FIXED_SRC in
  ids_wf = true /\
  In pll0 npcm8xx_clks /\ In pll0.(id) pll_ids /\
  0 * 0 * 0 = 0 /\
  get_rate CLK_PLL0 zero_regs = Undef.
Proof.
  intros pll0.
  assert (In pll0 npcm8xx_clks) as H0 by (cbn; pick).
  assert (In pll0.(id) pll_ids) as H0' by (cbn; pick).
  split; [reflexivity | ].
  do 2 (split; [assumption | ]).
  split; [reflexivity | ].
  exact (proj2 (pll_zero_divisor_undefined (ids := sample_ids) eq_refl pll0 zero_regs H0 H0' eq_refl)).
Defined.

Lemma generic_divider_formula_witness :
  let ahb := clk_row CLK_AHB NONE CLKDIV1 CLK4DIV CPUCKSEL NONE
                     (Z.lor DIV_TYPE1 PRE_DIV2) in
  ids_wf = true /\
  In ahb npcm8xx_clks /\ ahb.(div_mask) <> u32 NONE /\
  field_get CLK4DIV (reg sample_regs CLKDIV1) = 1 /\
  npcm_clk_get_fout (clk_get_rate tree_depth) (u32 CLK_AHB) sample_regs
  = Ret (800000000 / ((1 + 1) * 2)) sample_regs.
Proof.
  intros ahb.
  assert (In ahb npcm8xx_clks) as Hin by (cbn; pick).
  assert (ahb.(div_mask) <> u32 NONE) as Hm by discriminate.
  split; [reflexivity | ].
  do 2 (split; [assumption | ]).
  split; [reflexivity | ].
  exact (proj1 (proj2 (proj2
           (generic_divider_formula (ids := sample_ids) eq_refl ahb tree_depth sample_regs Hin Hm)))).
Defined.

Lemma unknown_selector_encoding_witness :
  (forall e, In e (selector_map CPUCKSEL) -> e.(clksel) <> CPUCKSEL_REFCLK) /\
  clksel_to_clkid CPUCKSEL_REFCLK CPUCKSEL = - EINVAL /\
  get_rate CLK_AHB stray_mux_regs = Ret 0 stray_mux_regs.
Proof.
  assert (forall e, In e (selector_map CPUCKSEL) -> e.(clksel) <> CPUCKSEL_REFCLK)
    as H by (intros e [<- | [<- | [<- | []]]]; discriminate).
  split; [exact H | ].
  destruct (unknown_selector_encoding (ids := sample_ids) eq_refl
              CPUCKSEL CPUCKSEL_REFCLK H) as (H1 & _ & _ & H2).
  split; [exact H1 | ].
  exact (H2 stray_mux_regs eq_refl eq_refl).
Defined.

(** C6 as stated fails: with 2 in the CPU mux field, an encoding without
    an entry in the CPU selector map, the input frequency of AHB and the
    rate of AHB are reported as 0, a value like any other rate; no error
    reaches the caller. *)
Lemma unknown_selector_gives_zero_rate :
  let ahb := clk_row CLK_AHB NONE CLKDIV1 CLK4DIV CPUCKSEL NONE
                     (Z.lor DIV_TYPE1 PRE_DIV2) in
  u8 (field_get CPUCKSEL (reg stray_mux_regs CLKSEL)) = 2 /\
  (forall e, In e (selector_map CPUCKSEL) -> e.(clksel) <> 2) /\
  npcm_clk_get_fin (clk_get_rate tree_depth) ahb stray_mux_regs
  = Ret 0 stray_mux_regs /\
  get_rate CLK_AHB stray_mux_regs = Ret 0 stray_mux_regs.
Proof.
  intros ahb. split; [reflexivity | ]. split.
  - intros e [<- | [<- | [<- | []]]]; discriminate.
  - split; reflexivity.
Qed.

Lemma settable_selector_parent_witness :
  let uart1 := clk_row CLK_UART1 CLK_PLL2DIV2 CLKDIV1 UARTDIV1 UARTCKSEL
                       CKSEL_PLL2 DIV_TYPE1 in
  let s1 := program_div uart1 3472 (select_source uart1 sample_regs) in
  ids_wf = true /\
  In uart1 npcm8xx_clks /\ In uart1.(id) settable_ids /\
  set_rate CLK_UART1 115200 sample_regs = Ret 115174 s1 /\
  field_get UARTCKSEL (reg sample_regs CLKSEL) = 0 /\
  field_get UARTCKSEL (reg s1 CLKSEL) = CKSEL_PLL2 /\
  clksel_to_clkid (u8 (field_get UARTCKSEL (reg s1 CLKSEL))) UARTCKSEL
  = CLK_PLL2DIV2 /\
  npcm_clk_get_fin (clk_get_rate tree_depth) uart1 s1
  = clk_get_rate tree_depth CLK_PLL2DIV2 s1.
Proof.
  intros uart1 s1.
  assert (In uart1 npcm8xx_clks) as Hin by (cbn; pick).
  assert (In uart1.(id) settable_ids) as Hset by (cbn; pick).
  assert (set_rate uart1.(id) 115200 sample_regs = Ret 115174 s1)
    as Hret by reflexivity.
  split; [reflexivity | ].
  do 3 (split; [assumption | ]).
  split; [reflexivity | ].
  destruct (settable_selector_parent (ids := sample_ids) eq_refl
              uart1 Hin Hset) as (_ & _ & H).
  destruct (H 115200 sample_regs 115174 s1 Hret) as (H1 & H2 & H3 & _).
  split; [exact H1 | ]. split; [exact H2 | exact (H3 tree_depth)].
Defined.

Lemma set_rate_divisor_witness :
  let sdhc := clk_row CLK_SDHC CLK_PLL0 CLKDIV1 MMCCKDIV SDCKSEL CKSEL_PLL0
                      DIV_TYPE1 in
  let s1 := select_source sdhc sample_regs in
  ids_wf = true /\
  In sdhc npcm8xx_clks /\
  npcm_clk_get_fin (clk_get_rate tree_depth) sdhc s1 = Ret 800000000 s1 /\
  0 < 800000000 /\ 0 < 50000000 /\ 800000000 + 50000000 - 1 < 2 ^ 64 /\
  ceil_div 800000000 50000000 < 2 ^ 32 /\
  In sdhc.(id) settable_ids /\
  set_rate CLK_SDHC 50000000 sample_regs
  = Ret 50000000 (program_div sdhc 15 s1) /\
  field_get MMCCKDIV (reg (program_div sdhc 15 s1) CLKDIV1) = 15.
Proof.
  intros sdhc s1.
  assert (In sdhc npcm8xx_clks) as Hin by (cbn; pick).
  assert (In sdhc.(id) settable_ids) as Hset by (cbn; pick).
  assert (npcm_clk_get_fin (clk_get_rate tree_depth) sdhc s1 = Ret 800000000 s1)
    as Hfin by reflexivity.
  split; [reflexivity | ].
  do 2 (split; [assumption | ]).
  do 4 (split; [reflexivity | ]).
  split; [assumption | ].
  destruct (set_rate_divisor (ids := sample_ids) eq_refl sdhc 50000000 800000000
              sample_regs Hin Hfin eq_refl eq_refl eq_refl eq_refl)
    as (_ & _ & _ & Hsettable).
  destruct (Hsettable Hset) as (_ & Hrate & _ & Hfield).
  split; [exact Hrate | ].
  apply Hfield. discriminate.
Defined.

(** C3 as stated fails.  With an input of 800 MHz and a target of 1 MHz
    the divisor is 800, yet the divider field, five bits wide, receives
    31 and not 799, while 1 MHz is returned as the achieved rate.  And
    with an input frequency of 0 (feedback divider cleared) the divisor
    is 0, not 1: the final division is a division by zero. *)
Lemma set_rate_field_is_cut :
  let sdhc := clk_row CLK_SDHC CLK_PLL0 CLKDIV1 MMCCKDIV SDCKSEL CKSEL_PLL0
                      DIV_TYPE1 in
  let s2 := program_div sdhc 799 (select_source sdhc sample_regs) in
  ceil_div 800000000 1000000 = 800 /\
  set_rate CLK_SDHC 1000000 sample_regs = Ret 1000000 s2 /\
  field_get MMCCKDIV (reg s2 CLKDIV1) = 31 /\
  31 <> 800 - 1 /\
  get_rate CLK_PLL0 stopped_pll_regs = Ret 0 stopped_pll_regs /\
  set_rate CLK_SDHC 1000000 stopped_pll_regs = Undef.
Proof.
  intros sdhc s2. repeat split; try reflexivity. discriminate.
Qed.

Lemma set_rate_then_get_rate_witness :
  let sdhc := clk_row CLK_SDHC CLK_PLL0 CLKDIV1 MMCCKDIV SDCKSEL CKSEL_PLL0
                      DIV_TYPE1 in
  let s1 := program_div sdhc 15 (select_source sdhc sample_regs) in
  ids_wf = true /\
  In sdhc npcm8xx_clks /\ In sdhc.(id) settable_ids /\
  0 <= 50000000 < 2 ^ 64 /\
  set_rate CLK_SDHC 50000000 sample_regs = Ret 50000000 s1 /\
  get_rate CLK_SDHC s1 = Ret (u64 (- ENOSYS)) s1.
Proof.
  intros sdhc s1.
  assert (In sdhc npcm8xx_clks) as Hin by (cbn; pick).
  assert (In sdhc.(id) settable_ids) as Hset by (cbn; pick).
  assert (0 <= 50000000 < 2 ^ 64) as Hr by lia.
  assert (set_rate CLK_SDHC 50000000 sample_regs = Ret 50000000 s1)
    as Hret by reflexivity.
  split; [reflexivity | ].
  do 4 (split; [assumption | ]).
  exact (proj1 (set_rate_then_get_rate (ids := sample_ids) eq_refl sdhc 50000000
                  sample_regs 50000000 s1 Hin Hset Hr Hret)).
Defined.

(** C4 as stated fails: [set_rate] on SDHC returns 50 MHz, and
    [get_rate] on SDHC right after returns [-ENOSYS], not 50 MHz. *)
Lemma get_rate_after_set_rate_differs :
  let sdhc := clk_row CLK_SDHC CLK_PLL0 CLKDIV1 MMCCKDIV SDCKSEL CKSEL_PLL0
                      DIV_TYPE1 in
  let s1 := program_div sdhc 15 (select_source sdhc sample_regs) in
  set_rate CLK_SDHC 50000000 sample_regs = Ret 50000000 s1 /\
  get_rate CLK_SDHC s1 = Ret (2 ^ 64 - 38) s1 /\
  50000000 <> 2 ^ 64 - 38.
Proof.
  intros sdhc s1. repeat split; try reflexivity. discriminate.
Qed.

Lemma set_rate_idempotent_witness :
  let uart1 := clk_row CLK_UART1 CLK_PLL2DIV2 CLKDIV1 UARTDIV1 UARTCKSEL
                       CKSEL_PLL2 DIV_TYPE1 in
  let s1 := program_div uart1 3472 (select_source uart1 sample_regs) in
  ids_wf = true /\
  In uart1 npcm8xx_clks /\ In uart1.(id) settable_ids /\
  set_rate CLK_UART1 115200 sample_regs = Ret 115174 s1 /\
  exists s2,
    set_rate CLK_UART1 115200 s1 = Ret 115174 s2 /\
    (forall off, cells s2 off = cells s1 off).
Proof.
  intros uart1 s1.
  assert (In uart1 npcm8xx_clks) as Hin by (cbn; pick).
  assert (In uart1.(id) settable_ids) as Hset by (cbn; pick).
  assert (set_rate CLK_UART1 115200 sample_regs = Ret 115174 s1)
    as Hret by reflexivity.
  split; [reflexivity | ].
  do 3 (split; [assumption | ]).
  destruct (set_rate_idempotent (ids := sample_ids) eq_refl uart1 115200
              sample_regs 115174 s1 Hin Hset Hret) as (s2 & H1 & H2 & _).
  exists s2. split; [exact H1 | exact H2].
Defined.

(** ** Examples for the further properties *)

Lemma field_codec_laws_witness :
  0 < UARTDIV1 < 2 ^ 32 /\
  field_get UARTDIV1 (field_set UARTDIV1 0xFFFFFFFF 5) = 5 /\
  field_get MMCCKDIV (field_set UARTDIV1 0xFFFFFFFF 5) = 31.
Proof.
  assert (0 < UARTDIV1 < 2 ^ 32) as Hm by (split; reflexivity).
  split; [exact Hm | ].
  destruct (field_codec_laws UARTDIV1 0xFFFFFFFF 5 Hm) as (H1 & _ & H3 & _).
  split; [exact H1 | ].
  exact (H3 MMCCKDIV ltac:(split; [discriminate | reflexivity]) eq_refl).
Defined.

Lemma npcm_clk_get_lookup_witness :
  ids_wf = true /\
  npcm_clk_get (u32 CLK_SDHC)
  = Some (clk_row CLK_SDHC CLK_PLL0 CLKDIV1 MMCCKDIV SDCKSEL CKSEL_PLL0 DIV_TYPE1) /\
  npcm_clk_get (u32 CLK_REFCLK) = None.
Proof.
  split; [reflexivity | ].
  destruct (npcm_clk_get_lookup (ids := sample_ids) eq_refl) as (H1 & _ & _ & H4).
  split; [ | exact H4].
  apply (H1 (clk_row CLK_SDHC CLK_PLL0 CLKDIV1 MMCCKDIV SDCKSEL CKSEL_PLL0 DIV_TYPE1)).
  cbn. pick.
Defined.

Lemma missing_row_returns_zero_witness :
  (forall c, In c npcm8xx_clks -> u32 c.(id) <> u32 CLK_REFCLK) /\
  npcm_clk_set_fout (clk_get_rate tree_depth) (u32 CLK_REFCLK) 1000000 sample_regs
  = Ret 0 sample_regs.
Proof.
  assert (forall c, In c npcm8xx_clks -> u32 c.(id) <> u32 CLK_REFCLK) as H.
  { intros c Hc. cbn in Hc.
    repeat (destruct Hc as [<- | Hc]; [discriminate | ]). contradiction. }
  split; [exact H | ].
  exact (proj2 (proj2 (missing_row_returns_zero (clk_get_rate tree_depth)
                         (u32 CLK_REFCLK) 1000000 sample_regs H))).
Defined.

Lemma npcm_clk_request_bounds_witness :
  ids_wf = true /\
  npcm_clk_request (u64 CLK_SDHC) = 0 /\
  npcm_clk_request (u64 (- EINVAL)) = - EINVAL.
Proof.
  split; [reflexivity | ].
  destruct (npcm_clk_request_bounds (ids := sample_ids) eq_refl) as (_ & H2 & H3).
  split.
  - apply H2. cbn. pick.
  - apply H3. split; [discriminate | reflexivity].
Defined.

Lemma clksel_to_clkid_decodes_witness :
  ids_wf = true /\
  clksel_to_clkid CKSEL_PLL2 UARTCKSEL = CLK_PLL2DIV2 /\
  clksel_to_clkid CKSEL_REFCLK UARTCKSEL = - EINVAL.
Proof.
  split; [reflexivity | ].
  destruct (clksel_to_clkid_decodes (ids := sample_ids) eq_refl UARTCKSEL)
    as (H1 & _ & _ & _ & H5).
  split.
  - apply (H1 (mk_map CLK_PLL2DIV2 CKSEL_PLL2)). cbn. pick.
  - apply H5. discriminate.
Defined.

Lemma fixed_source_input_witness :
  let apb2 := clk_row CLK_APB2 CLK_AHB CLKDIV2 APB2CKDIV NONE NONE
                      (Z.lor FIXED_SRC DIV_TYPE2) in
  ids_wf = true /\
  In apb2 npcm8xx_clks /\ has_flag apb2.(flags) FIXED_SRC = true /\
  npcm_clk_get_fin (clk_get_rate tree_depth) apb2 stray_mux_regs
  = clk_get_rate tree_depth CLK_AHB stray_mux_regs.
Proof.
  intros apb2.
  assert (In apb2 npcm8xx_clks) as Hin by (cbn; pick).
  split; [reflexivity | ]. split; [exact Hin | ]. split; [reflexivity | ].
  exact (proj2 (proj2 (fixed_source_input (ids := sample_ids) eq_refl
                         (clk_get_rate tree_depth) apb2 stray_mux_regs Hin eq_refl))).
Defined.

Lemma mux_source_input_witness :
  let uart1 := clk_row CLK_UART1 CLK_PLL2DIV2 CLKDIV1 UARTDIV1 UARTCKSEL
                       CKSEL_PLL2 DIV_TYPE1 in
  let e := mk_map CLK_PLL1 CKSEL_PLL1 in
  let s := mk_regs (fun o => if o =? CLKSEL then 0x100 else cells sample_regs o) [] in
  ids_wf = true /\
  has_flag uart1.(flags) FIXED_SRC = false /\
  In e (selector_map uart1.(sel_mask)) /\
  u8 (field_get uart1.(sel_mask) (reg s CLKSEL)) = e.(clksel) /\
  npcm_clk_get_fin (clk_get_rate tree_depth) uart1 s
  = clk_get_rate tree_depth CLK_PLL1 s.
Proof.
  intros uart1 e s.
  assert (In e (selector_map uart1.(sel_mask))) as He by (cbn; pick).
  split; [reflexivity | ]. split; [reflexivity | ]. split; [exact He | ].
  split; [reflexivity | ].
  exact (proj2 (mux_source_input (ids := sample_ids) eq_refl
                  (clk_get_rate tree_depth) uart1 e s eq_refl He eq_refl)).
Defined.

Lemma pll2div2_is_half_pll2_witness :
  ids_wf = true /\
  get_rate CLK_PLL2 sample_regs = Ret 800000000 sample_regs /\
  get_rate CLK_PLL2DIV2 sample_regs = Ret 400000000 sample_regs /\
  get_rate CLK_PLL2 zero_regs = Undef /\
  get_rate CLK_PLL2DIV2 zero_regs = Undef.
Proof.
  split; [reflexivity | ].
  destruct (pll2div2_is_half_pll2 (ids := sample_ids) eq_refl sample_regs)
    as (_ & _ & Hrate).
  destruct (pll2div2_is_half_pll2 (ids := sample_ids) eq_refl zero_regs)
    as (_ & Hzero & _).
  destruct (Hrate ltac:(vm_compute; discriminate)) as [H1 H2].
  destruct (Hzero eq_refl) as [H3 H4].
  repeat split; assumption.
Defined.

Lemma ahb_rate_formula_witness :
  let e := mk_map CLK_PLL0 CPUCKSEL_PLL0 in
  ids_wf = true /\
  In e (selector_map CPUCKSEL) /\
  u8 (field_get CPUCKSEL (reg sample_regs CLKSEL)) = e.(clksel) /\
  get_rate CLK_AHB sample_regs
  = (r <- get_rate CLK_PLL0 ;; ret (r / (2 * (1 + 1)))) sample_regs.
Proof.
  intros e.
  assert (In e (selector_map CPUCKSEL)) as He by (cbn; pick).
  split; [reflexivity | ]. split; [exact He | ]. split; [reflexivity | ].
  exact (ahb_rate_formula (ids := sample_ids) eq_refl e sample_regs He eq_refl).
Defined.

Lemma apb_rate_formula_witness :
  let apb5 := clk_row CLK_APB5 CLK_AHB CLKDIV2 APB5CKDIV NONE NONE
                      (Z.lor FIXED_SRC DIV_TYPE2) in
  let s := mk_regs (fun o => if o =? CLKDIV2 then 0x00800000
                             else cells sample_regs o) [] in
  ids_wf = true /\
  In apb5 npcm8xx_clks /\ In apb5.(id) [CLK_APB2; CLK_APB5] /\
  get_rate CLK_APB5 s = (ahb <- get_rate CLK_AHB ;; ret (ahb / 2 ^ 2)) s.
Proof.
  intros apb5 s.
  assert (In apb5 npcm8xx_clks) as Hin by (cbn; pick).
  assert (In apb5.(id) [CLK_APB2; CLK_APB5]) as Hid by (cbn; pick).
  split; [reflexivity | ]. split; [exact Hin | ]. split; [exact Hid | ].
  exact (proj1 (proj2 (apb_rate_formula (ids := sample_ids) eq_refl apb5 s Hin Hid))).
Defined.

Lemma resolved_rate_range_witness :
  ids_wf = true /\
  In CLK_AHB readable_ids /\
  get_rate CLK_AHB sample_regs = Ret 200000000 sample_regs /\
  0 <= 200000000 <= PLL_RATE_MAX.
Proof.
  assert (In CLK_AHB readable_ids) as Hi by (cbn; pick).
  assert (get_rate CLK_AHB sample_regs = Ret 200000000 sample_regs) as H
      by reflexivity.
  split; [reflexivity | ]. split; [exact Hi | ]. split; [exact H | ].
  exact (proj1 (resolved_rate_range (ids := sample_ids) eq_refl CLK_AHB sample_regs
                  200000000 sample_regs Hi H)).
Defined.

Lemma get_rate_inputs_witness :
  let s' := mk_regs (fun o => if o =? CLKDIV3 then 0xFFFFFFFF
                              else if o =? CLKSEL then 0x3C0
                              else cells sample_regs o) [] in
  ids_wf = true /\
  same_inputs sample_regs s' /\
  same_result (get_rate CLK_APB2 sample_regs) (get_rate CLK_APB2 s').
Proof.
  intros s'.
  assert (same_inputs sample_regs s') as Hs by (repeat split).
  split; [reflexivity | ]. split; [exact Hs | ].
  exact (proj1 (get_rate_inputs (ids := sample_ids) eq_refl sample_regs s' Hs
                  CLK_APB2)).
Defined.

Lemma set_rate_keeps_rates_witness :
  let uart1 := clk_row CLK_UART1 CLK_PLL2DIV2 CLKDIV1 UARTDIV1 UARTCKSEL
                       CKSEL_PLL2 DIV_TYPE1 in
  let s1 := program_div uart1 3472 (select_source uart1 sample_regs) in
  ids_wf = true /\
  In uart1 npcm8xx_clks /\ In uart1.(id) settable_ids /\
  set_rate CLK_UART1 115200 sample_regs = Ret 115174 s1 /\
  get_rate CLK_AHB sample_regs = Ret 200000000 sample_regs /\
  get_rate CLK_AHB s1 = Ret 200000000 s1.
Proof.
  intros uart1 s1.
  assert (In uart1 npcm8xx_clks) as Hin by (cbn; pick).
  assert (In uart1.(id) settable_ids) as Hset by (cbn; pick).
  assert (set_rate CLK_UART1 115200 sample_regs = Ret 115174 s1)
    as Hret by reflexivity.
  assert (get_rate CLK_AHB sample_regs = Ret 200000000 sample_regs)
    as Hahb by reflexivity.
  split; [reflexivity | ]. do 4 (split; [assumption | ]).
  exact (proj2 (proj2 (set_rate_keeps_rates (ids := sample_ids) eq_refl uart1
                  115200 sample_regs 115174 s1 Hin Hset Hret) CLK_AHB)
               200000000 Hahb).
Defined.

Lemma set_rate_frame_witness :
  let sdhc := clk_row CLK_SDHC CLK_PLL0 CLKDIV1 MMCCKDIV SDCKSEL CKSEL_PLL0
                      DIV_TYPE1 in
  let s1 := program_div sdhc 15 (select_source sdhc sample_regs) in
  ids_wf = true /\
  In sdhc npcm8xx_clks /\ In sdhc.(id) settable_ids /\
  set_rate CLK_SDHC 50000000 sample_regs = Ret 50000000 s1 /\
  written s1 = [(CLKDIV1, cells s1 CLKDIV1); (CLKSEL, cells s1 CLKSEL)].
Proof.
  intros sdhc s1.
  assert (In sdhc npcm8xx_clks) as Hin by (cbn; pick).
  assert (In sdhc.(id) settable_ids) as Hset by (cbn; pick).
  assert (set_rate CLK_SDHC 50000000 sample_regs = Ret 50000000 s1)
    as Hret by reflexivity.
  split; [reflexivity | ]. do 3 (split; [assumption | ]).
  exact (proj2 (proj2 (proj2 (set_rate_frame (ids := sample_ids) eq_refl sdhc
                  50000000 sample_regs 50000000 s1 Hin Hset Hret)))).
Defined.

Lemma set_rate_other_nodes_witness :
  let sdhc := clk_row CLK_SDHC CLK_PLL0 CLKDIV1 MMCCKDIV SDCKSEL CKSEL_PLL0
                      DIV_TYPE1 in
  let ahb := clk_row CLK_AHB NONE CLKDIV1 CLK4DIV CPUCKSEL NONE
                     (Z.lor DIV_TYPE1 PRE_DIV2) in
  let s1 := program_div sdhc 15 (select_source sdhc sample_regs) in
  ids_wf = true /\
  In sdhc npcm8xx_clks /\ In sdhc.(id) settable_ids /\
  set_rate CLK_SDHC 50000000 sample_regs = Ret 50000000 s1 /\
  In ahb npcm8xx_clks /\ ahb.(div_mask) <> u32 NONE /\ ahb.(id) <> sdhc.(id) /\
  field_get CLK4DIV (reg s1 CLKDIV1) = field_get CLK4DIV (reg sample_regs CLKDIV1).
Proof.
  intros sdhc ahb s1.
  assert (In sdhc npcm8xx_clks) as Hin by (cbn; pick).
  assert (In sdhc.(id) settable_ids) as Hset by (cbn; pick).
  assert (set_rate CLK_SDHC 50000000 sample_regs = Ret 50000000 s1)
    as Hret by reflexivity.
  assert (In ahb npcm8xx_clks) as Ha by (cbn; pick).
  assert (ahb.(div_mask) <> u32 NONE) as Hm by discriminate.
  assert (ahb.(id) <> sdhc.(id)) as Hne by discriminate.
  split; [reflexivity | ]. do 6 (split; [assumption | ]).
  exact (proj1 (set_rate_other_nodes (ids := sample_ids) eq_refl sdhc 50000000
                  sample_regs 50000000 s1 ahb Hin Hset Hret Ha) Hm Hne).
Defined.

Lemma set_rate_zero_target_witness :
  let uart2 := clk_row CLK_UART2 CLK_PLL2DIV2 CLKDIV3 UARTDIV2 UARTCKSEL
                       CKSEL_PLL2 DIV_TYPE1 in
  ids_wf = true /\
  In uart2 npcm8xx_clks /\ In uart2.(id) settable_ids /\
  set_rate CLK_UART2 0 sample_regs = Undef.
Proof.
  intros uart2.
  assert (In uart2 npcm8xx_clks) as Hin by (cbn; pick).
  assert (In uart2.(id) settable_ids) as Hset by (cbn; pick).
  split; [reflexivity | ]. do 2 (split; [assumption | ]).
  exact (proj1 (set_rate_zero_target (ids := sample_ids) eq_refl uart2 sample_regs
                  Hin Hset)).
Defined.

Lemma set_rate_not_above_target_witness :
  let uart1 := clk_row CLK_UART1 CLK_PLL2DIV2 CLKDIV1 UARTDIV1 UARTCKSEL
                       CKSEL_PLL2 DIV_TYPE1 in
  let s1 := program_div uart1 3472 (select_source uart1 sample_regs) in
  ids_wf = true /\
  In uart1 npcm8xx_clks /\ In uart1.(id) settable_ids /\
  24 <= 115200 < 2 ^ 64 /\
  set_rate CLK_UART1 115200 sample_regs = Ret 115174 s1 /\
  0 <= 115174 <= 115200.
Proof.
  intros uart1 s1.
  assert (In uart1 npcm8xx_clks) as Hin by (cbn; pick).
  assert (In uart1.(id) settable_ids) as Hset by (cbn; pick).
  assert (24 <= 115200 < 2 ^ 64) as Hr by lia.
  assert (set_rate CLK_UART1 115200 sample_regs = Ret 115174 s1)
    as Hret by reflexivity.
  split; [reflexivity | ]. do 4 (split; [assumption | ]).
  exact (set_rate_not_above_target (ids := sample_ids) eq_refl uart1 115200
           sample_regs 115174 s1 Hin Hset Hr Hret).
Defined.

Lemma programmed_rate_not_below_reported_witness :
  let uart1 := clk_row CLK_UART1 CLK_PLL2DIV2 CLKDIV1 UARTDIV1 UARTCKSEL
                       CKSEL_PLL2 DIV_TYPE1 in
  let s1 := program_div uart1 3472 (select_source uart1 sample_regs) in
  ids_wf = true /\
  In uart1 npcm8xx_clks /\ In uart1.(id) settable_ids /\
  24 <= 115200 < 2 ^ 64 /\
  set_rate CLK_UART1 115200 sample_regs = Ret 115174 s1 /\
  exists r',
    npcm_clk_get_fout (clk_get_rate tree_depth) (u32 CLK_UART1) s1 = Ret r' s1 /\
    115174 <= r'.
Proof.
  intros uart1 s1.
  assert (In uart1 npcm8xx_clks) as Hin by (cbn; pick).
  assert (In uart1.(id) settable_ids) as Hset by (cbn; pick).
  assert (24 <= 115200 < 2 ^ 64) as Hr by lia.
  assert (set_rate CLK_UART1 115200 sample_regs = Ret 115174 s1)
    as Hret by reflexivity.
  split; [reflexivity | ]. do 4 (split; [assumption | ]).
  exact (programmed_rate_not_below_reported (ids := sample_ids) eq_refl uart1
           115200 sample_regs 115174 s1 Hin Hset Hr Hret).
Defined.

Lemma set_rate_returns_iff_witness :
  let sdhc := clk_row CLK_SDHC CLK_PLL0 CLKDIV1 MMCCKDIV SDCKSEL CKSEL_PLL0
                      DIV_TYPE1 in
  ids_wf = true /\
  In sdhc npcm8xx_clks /\ In sdhc.(id) settable_ids /\
  24 <= 50000000 <= 2 ^ 63 /\
  get_rate CLK_PLL0 stray_mux_regs = Ret 800000000 stray_mux_regs /\
  exists s1, set_rate CLK_SDHC 50000000 stray_mux_regs = Ret 50000000 s1.
Proof.
  intros sdhc.
  assert (In sdhc npcm8xx_clks) as Hin by (cbn; pick).
  assert (In sdhc.(id) settable_ids) as Hset by (cbn; pick).
  assert (24 <= 50000000 <= 2 ^ 63) as Hr by lia.
  assert (get_rate CLK_PLL0 stray_mux_regs = Ret 800000000 stray_mux_regs)
    as Hp by reflexivity.
  split; [reflexivity | ]. do 4 (split; [assumption | ]).
  apply (proj2 (set_rate_returns_iff (ids := sample_ids) eq_refl sdhc 50000000
                  stray_mux_regs 50000000 Hin Hset Hr)).
  exists 800000000. split; [exact Hp | ]. split; reflexivity.
Defined.
